(** * createAsyncThunk: lifecycle of one asynchronous request

    A shallow embedding of [src/createAsyncThunk.ts]: the default error
    serializer [miniSerializeError], the three action creators [pending],
    [fulfilled] and [rejected], the thunk built by [actionCreator] (gate,
    race between the payload creator and the abort signal, dispatch of the
    final action) and [unwrapResult].

    The functions of the client are taken by what they do when called: the
    condition returns a value or throws, the payload creator throws, returns
    a value or returns a promise that resolves, is rejected or stays
    pending.  [dispatch], [options.serializeError] and the id generator are
    taken to return; the actions the payload creator dispatches on its own
    account are not part of what is recorded. *)

From stdpp Require Import base option list strings gmap pretty.

Open Scope string_scope.

Set Warnings "-register-all".

(** What calling a function, or reading a property, gives: a value or an
    exception. *)
Inductive Result (V E : Type) := Returns (v : V) | Throws (e : E).
Arguments Returns {V E} v.
Arguments Throws {V E} e.

(** ** JavaScript values

    Only what the module can observe of a value.  A number is kept by what
    [String] prints for it and by its truthiness ([42] is ["42"] and truthy,
    [NaN] is ["NaN"] and falsy, [1e21] is ["1e+21"] and truthy): the module
    does nothing else with a number.  An object remembers whether it was
    built by the private class [RejectWithValue], which is all that
    [instanceof] asks.  An object with data properties only is a finite map
    from property names to values.  An object some of whose properties are
    accessors is given by what its reads do: [reads n p] is what reading
    property [p] gives when [n] reads of the object have been made before, a
    value or an exception, so that two reads of one property need not
    agree.  The reads are counted within one call of [rejected], or of
    [miniSerializeError] when it is called on its own: these are the only
    functions of the module that read an object they are given. *)

Inductive Class := PlainObject | RejectWithValueClass.

Inductive JsVal :=
| JUndefined
| JNull
| JBool (b : bool)
| JNum (text : string) (nonzero : bool)
| JStr (s : string)
| JObj (c : Class) (props : gmap string JsVal)
| JAccessors (c : Class) (reads : nat → string → Result JsVal JsVal).

Abbreviation Completion := (Result JsVal JsVal).

(** [!!v] *)
Definition truthy (v : JsVal) : bool :=
  match v with
  | JUndefined | JNull => false
  | JBool b => b
  | JNum _ nonzero => nonzero
  | JStr s => negb (String.eqb s EmptyString)
  | JObj _ _ | JAccessors _ _ => true
  end.

(** [a || b] *)
Definition js_or (a b : JsVal) : JsVal := if truthy a then a else b.

(** [typeof v === 'object' && v !== null] *)
Definition is_object (v : JsVal) : bool :=
  match v with JObj _ _ | JAccessors _ _ => true | _ => false end.

(** The value of property [p] of a value without accessors; a primitive has
    none of the properties this module reads. *)
Definition get (v : JsVal) (p : string) : JsVal :=
  match v with
  | JObj _ props => default JUndefined (props !! p)
  | _ => JUndefined
  end.

(** [v[p]] for a [v] that is neither [null] nor [undefined], when [n] reads
    of [v] have been made before. *)
Definition read (n : nat) (v : JsVal) (p : string) : Completion :=
  match v with
  | JAccessors _ reads => reads n p
  | _ => Returns (get v p)
  end.

(** [typeof v === 'string'] *)
Definition is_string (v : JsVal) : bool :=
  match v with JStr _ => true | _ => false end.

(** [v === JStr s] *)
Definition is_str (s : string) (v : JsVal) : bool :=
  match v with JStr t => String.eqb t s | _ => false end.

(** [String(v)] on a primitive. *)
Definition String_ (v : JsVal) : string :=
  match v with
  | JUndefined => "undefined"
  | JNull => "null"
  | JBool true => "true"
  | JBool false => "false"
  | JNum text _ => text
  | JStr s => s
  | JObj _ _ | JAccessors _ _ => "[object Object]"
  end.

(** ** Code that reads properties

    A computation that reads properties of one object: it is given the
    number of reads made so far, and ends with a value and the new number of
    reads, or with the exception of a read. *)

Definition Reads (A : Type) : Type := nat → Result (A * nat) JsVal.

Global Instance Reads_ret : MRet Reads := λ A a n, Returns (a, n).

Global Instance Reads_bind : MBind Reads := λ A B f m n,
  match m n with
  | Returns (a, n') => f a n'
  | Throws e => Throws e
  end.

(** [v[p]] *)
Definition readProperty (v : JsVal) (p : string) : Reads JsVal := λ n,
  match read n v p with
  | Returns x => Returns (x, S n)
  | Throws e => Throws e
  end.

(** The computation, run on an object nothing has read yet. *)
Definition runReads {A : Type} (m : Reads A) : Result A JsVal :=
  match m 0 with
  | Returns (a, _) => Returns a
  | Throws e => Throws e
  end.

(** [for (const x of l) { acc = f(acc, x) }] *)
Fixpoint forOf {A B : Type} (f : A → B → Reads A) (acc : A) (l : list B) : Reads A :=
  match l with
  | [] => mret acc
  | x :: l => acc' ← f acc x; forOf f acc' l
  end.

(** ** The error serializer *)

Definition commonProperties : list string :=
  ["name"; "message"; "stack"; "code"].

(** One turn of the loop over [commonProperties]: the property is read for
    the [typeof] test, and read again to be copied. *)
Definition copyProperty (value : JsVal) (simpleError : gmap string JsVal)
    (property : string) : Reads (gmap string JsVal) :=
  tested ← readProperty value property;
  if is_string tested
  then copied ← readProperty value property;
       mret (<[property := copied]> simpleError)
  else mret simpleError.

(** The body of [miniSerializeError]. *)
Definition miniSerializeErrorReads (value : JsVal) : Reads JsVal :=
  if is_object value
  then simpleError ← forOf (copyProperty value) ∅ commonProperties;
       mret (JObj PlainObject simpleError)
  else mret (JObj PlainObject {[ "message" := JStr (String_ value) ]}).

Definition miniSerializeError (value : JsVal) : Completion :=
  runReads (miniSerializeErrorReads value).

(** [class RejectWithValue] and [new RejectWithValue(payload)]. *)
Definition newRejectWithValue (payload : JsVal) : JsVal :=
  JObj RejectWithValueClass
    (<["name" := JStr "RejectWithValue"]>
       (<["message" := JStr "Rejected"]> {[ "payload" := payload ]})).

(** [v instanceof RejectWithValue] *)
Definition instanceofRejectWithValue (v : JsVal) : bool :=
  match v with
  | JObj RejectWithValueClass _ | JAccessors RejectWithValueClass _ => true
  | _ => false
  end.

(** ** Actions

    The object an action creator returns: [type], [payload], an [error]
    property that only rejected actions have, and [meta].  The three flags of
    [meta] exist on rejected actions only. *)

Inductive RequestStatus := StatusPending | StatusFulfilled | StatusRejected.

Record Meta := {
  arg : JsVal;
  requestId : string;
  requestStatus : RequestStatus;
  rejectedWithValue : option bool;
  aborted : option bool;
  condition : option bool;
}.

Record Action := {
  type : string;
  payload : JsVal;
  error : option JsVal;
  meta : option Meta;
}.

(** A property that is absent reads as [undefined], which is falsy. *)
Definition flag (a : Action) (f : Meta → option bool) : bool :=
  default false (meta a ≫= f).

(** What the prepare callback of an action creator returns. *)
Record Prepared := {
  prepared_payload : JsVal;
  prepared_error : option JsVal;
  prepared_meta : option Meta;
}.

(** Modelled from the spec: [createAction(type, prepare)] of ./createAction,
    which is not among the sources.  The action creator it returns tags what
    [prepare] made of the arguments with [type], and its [match] recognises
    the actions that carry this tag. *)
Definition createAction (type : string) (prepared : Prepared) : Action :=
  {| type := type;
     payload := prepared_payload prepared;
     error := prepared_error prepared;
     meta := prepared_meta prepared |}.

Definition matches (tag : string) (a : Action) : bool := String.eqb (type a) tag.

(** How the promise made from the payload creator's result ends. *)
Inductive Settlement := Resolves (v : JsVal) | RejectsWith (e : JsVal) | NeverSettles.

Inductive PayloadResult :=
| ThrowsSync (e : JsVal)
| ReturnsValue (v : JsVal)
| ReturnsPromise (p : Settlement).

Module AsyncThunkOptions.
Record t := {
  condition : option (JsVal → JsVal → JsVal → Completion);
  dispatchConditionRejection : option bool;
  serializeError : option (JsVal → JsVal);
  idGenerator : option string;
}.
End AsyncThunkOptions.

(** The arguments of [createAsyncThunk].  The payload creator is given the
    argument, the request id, the state and the extra argument. *)
Record AsyncThunk := {
  typePrefix : string;
  payloadCreator : JsVal → string → JsVal → JsVal → PayloadResult;
  options : option AsyncThunkOptions.t;
}.

(** What the platform and the store provide: whether [AbortController] is
    defined, the id [nanoid] returns for this call, and what [getState()] and
    [extra] are. *)
Record Host := {
  hasAbortController : bool;
  nanoid : string;
  getState : JsVal;
  extra : JsVal;
}.

Section createAsyncThunk.
Variable thunk : AsyncThunk.

Definition fulfilled (result : JsVal) (requestId : string) (arg : JsVal) : Action :=
  createAction (typePrefix thunk +:+ "/fulfilled")
    {| prepared_payload := result;
       prepared_error := None;
       prepared_meta := Some {| arg := arg; requestId := requestId;
                                requestStatus := StatusFulfilled;
                                rejectedWithValue := None; aborted := None;
                                condition := None |} |}.

Definition pending (requestId : string) (arg : JsVal) : Action :=
  createAction (typePrefix thunk +:+ "/pending")
    {| prepared_payload := JUndefined;
       prepared_error := None;
       prepared_meta := Some {| arg := arg; requestId := requestId;
                                requestStatus := StatusPending;
                                rejectedWithValue := None; aborted := None;
                                condition := None |} |}.

(** [(options && options.serializeError) || miniSerializeError], applied to
    a value. *)
Definition serializer (value : JsVal) : Reads JsVal :=
  match options thunk ≫= AsyncThunkOptions.serializeError with
  | Some serializeError => mret (serializeError value)
  | None => miniSerializeErrorReads value
  end.

(** [!!error && error.name === name] *)
Definition named (name : string) (error : JsVal) : Reads bool :=
  if truthy error
  then x ← readProperty error "name"; mret (is_str name x)
  else mret false.

(** The prepare callback of [rejected]. *)
Definition rejectedPrepare (error : JsVal) (requestId : string) (arg : JsVal) :
    Reads Prepared :=
  let rejectedWithValue := instanceofRejectWithValue error in
  aborted ← named "AbortError" error;
  condition ← named "ConditionError" error;
  payload ← (if instanceofRejectWithValue error
             then readProperty error "payload" else mret JUndefined);
  serialized ← serializer (js_or error (JStr "Rejected"));
  mret {| prepared_payload := payload;
          prepared_error := Some serialized;
          prepared_meta := Some {| arg := arg; requestId := requestId;
                                   rejectedWithValue := Some rejectedWithValue;
                                   requestStatus := StatusRejected;
                                   aborted := Some aborted;
                                   condition := Some condition |} |}.

(** [rejected(error, requestId, arg)]: the action, or the exception of a read
    of [error]. *)
Definition rejected (error : JsVal) (requestId : string) (arg : JsVal) :
    Result Action JsVal :=
  match runReads (rejectedPrepare error requestId arg) with
  | Returns prepared => Returns (createAction (typePrefix thunk +:+ "/rejected") prepared)
  | Throws x => Throws x
  end.
End createAsyncThunk.

(** ** [unwrapResult] *)

Definition unwrapResult (action : Action) : Completion :=
  if flag action rejectedWithValue then Throws (payload action)
  else match error action with
       | Some e => if truthy e then Throws e else Returns (payload action)
       | None => Returns (payload action)
       end.

(** ** One call of the thunk

    [actionCreator(arg)(dispatch, getState, extra)] sets up the request (its
    id, the abort controller, [abortReason], [abortedPromise], [started]),
    runs the body of the async function up to its [await], and hands back the
    promise with [abort] and [unwrap] attached.  The state below is the
    closure of that call: its variables, the phase the async function is in,
    [sink], the actions this call has passed to [dispatch], oldest first,
    [promise], what the returned promise has resolved to, and [thrown], the
    exception the returned promise was rejected with.

    Three things happen to it.  [Invoke]: the async function is entered and
    runs to its first suspension, or to its end.  [Abort reason]: somebody
    calls [abort(reason)]; the function exists as soon as the closure does, so
    the model lets it be called in every phase.  [ComputationSettles]: the
    promise made from the payload creator's result wins the race, and the
    async function resumes with its outcome. *)

Inductive Phase :=
| Created   (* set up, body of the async function not entered yet *)
| Running   (* suspended at [await Promise.race(...)] *)
| Settled.  (* the async function has returned, or an exception has left it *)

Record Invocation := {
  started : bool;
  abortReason : option string;
  signalAborted : bool;
  abortedPromise : option JsVal;    (* the rejection value, once rejected *)
  computation : option Settlement;  (* the promise made from the payload creator's result *)
  phase : Phase;
  sink : list Action;
  promise : option Action;
  thrown : option JsVal;
}.

Inductive Event :=
| Invoke
| Abort (reason : option string)
| ComputationSettles.

Definition conditionError : JsVal :=
  JObj PlainObject
    (<["name" := JStr "ConditionError"]>
       {[ "message" := JStr "Aborted due to condition callback returning false." ]}).

(** [{ name: 'AbortError', message: abortReason || 'Aborted' }] *)
Definition abortError (abortReason : option string) : JsVal :=
  JObj PlainObject
    (<["name" := JStr "AbortError"]>
       {[ "message" := js_or (from_option JStr JUndefined abortReason) (JStr "Aborted") ]}).

Section actionCreator.
Variable host : Host.
Variable thunk : AsyncThunk.
Variable arg : JsVal.

(** [(options?.idGenerator ?? nanoid)()] *)
Definition theRequestId : string :=
  default (nanoid host) (options thunk ≫= AsyncThunkOptions.idGenerator).

Definition initial : Invocation :=
  {| started := false; abortReason := None; signalAborted := false;
     abortedPromise := None; computation := None; phase := Created;
     sink := []; promise := None; thrown := None |}.

(** [options && options.condition && options.condition(arg, { getState, extra })],
    when there is a condition to call. *)
Definition gate : option Completion :=
  c ← options thunk ≫= AsyncThunkOptions.condition;
  Some (c arg (getState host) (extra host)).

(** [options && !options.dispatchConditionRejection && rejected.match(finalAction)
     && finalAction.meta.condition] *)
Definition skipDispatch (finalAction : Action) : bool :=
  match options thunk with
  | None => false
  | Some o =>
      negb (default false (AsyncThunkOptions.dispatchConditionRejection o))
      && matches (typePrefix thunk +:+ "/rejected") finalAction
      && flag finalAction condition
  end.

(** From the end of the [try] statement to [return finalAction]. *)
Definition finish (finalAction : Action) (s : Invocation) : Invocation :=
  {| started := started s; abortReason := abortReason s;
     signalAborted := signalAborted s; abortedPromise := abortedPromise s;
     computation := computation s;
     phase := Settled;
     sink := if skipDispatch finalAction then sink s else sink s ++ [finalAction];
     promise := Some finalAction;
     thrown := thrown s |}.

(** An exception leaves the async function: the returned promise is rejected
    with it. *)
Definition escape (x : JsVal) (s : Invocation) : Invocation :=
  {| started := started s; abortReason := abortReason s;
     signalAborted := signalAborted s; abortedPromise := abortedPromise s;
     computation := computation s;
     phase := Settled;
     sink := sink s;
     promise := promise s;
     thrown := Some x |}.

(** The [catch] clause; nothing catches what [rejected] throws there. *)
Definition catch (err : JsVal) (s : Invocation) : Invocation :=
  match rejected thunk err theRequestId arg with
  | Returns finalAction => finish finalAction s
  | Throws x => escape x s
  end.

(** [started = true; dispatch(pending(requestId, arg))], then the call of
    the payload creator. *)
Definition start (s : Invocation) : Invocation :=
  let s1 :=
    {| started := true; abortReason := abortReason s;
       signalAborted := signalAborted s; abortedPromise := abortedPromise s;
       computation := computation s; phase := phase s;
       sink := sink s ++ [pending thunk theRequestId arg];
       promise := promise s; thrown := thrown s |} in
  let await p :=
    {| started := started s1; abortReason := abortReason s1;
       signalAborted := signalAborted s1; abortedPromise := abortedPromise s1;
       computation := Some p; phase := Running;
       sink := sink s1; promise := promise s1; thrown := thrown s1 |} in
  match payloadCreator thunk arg theRequestId (getState host) (extra host) with
  | ThrowsSync e => catch e s1
  | ReturnsValue v => await (Resolves v)
  | ReturnsPromise p => await p
  end.

(** The body of the async function, up to its first suspension. *)
Definition body (s : Invocation) : Invocation :=
  match gate with
  | Some (Throws e) => catch e s
  | Some (Returns (JBool false)) => catch conditionError s
  | _ => start s
  end.

(** The [.then] callback on the payload creator's promise, whose exception
    rejects the race like a rejection of that promise does, and the [catch]
    clause for both. *)
Definition settled (p : Settlement) (s : Invocation) : Invocation :=
  match p with
  | Resolves result =>
      if instanceofRejectWithValue result
      then match rejected thunk result theRequestId arg with
           | Returns finalAction => finish finalAction s
           | Throws x => catch x s
           end
      else finish (fulfilled thunk result theRequestId arg) s
  | RejectsWith e => catch e s
  | NeverSettles => s
  end.

(** [abortController.abort()].  The platform's controller marks its signal
    and runs the ['abort'] listener on the first call only; the listener
    rejects [abortedPromise], and the race with it when the body is waiting
    on it.  The replacement class used where [AbortController] is undefined
    has a signal that never fires. *)
Definition abortController_abort (s : Invocation) : Invocation :=
  if hasAbortController host then
    if signalAborted s then s
    else
      let err := abortError (abortReason s) in
      let s1 :=
        {| started := started s; abortReason := abortReason s;
           signalAborted := true; abortedPromise := Some err;
           computation := computation s; phase := phase s;
           sink := sink s; promise := promise s; thrown := thrown s |} in
      match phase s with
      | Running => catch err s1
      | _ => s1
      end
  else s.

Definition abort (reason : option string) (s : Invocation) : Invocation :=
  if started s then
    abortController_abort
      {| started := started s; abortReason := reason;
         signalAborted := signalAborted s; abortedPromise := abortedPromise s;
         computation := computation s; phase := phase s;
         sink := sink s; promise := promise s; thrown := thrown s |}
  else s.

Definition step (s : Invocation) (e : Event) : Invocation :=
  match e with
  | Invoke => match phase s with Created => body s | _ => s end
  | Abort reason => abort reason s
  | ComputationSettles =>
      match phase s, computation s with
      | Running, Some p => settled p s
      | _, _ => s
      end
  end.

Definition run (events : list Event) : Invocation := foldl step initial events.
End actionCreator.

(** [unwrap()]: [promise.then(unwrapResult)]; a rejection of [promise] passes
    through. *)
Definition unwrap (s : Invocation) : option Completion :=
  match promise s with
  | Some finalAction => Some (unwrapResult finalAction)
  | None => Throws <$> thrown s
  end.

(** [abortedPromise] has been rejected although the call never reached
    [Promise.race], the only place that attaches a handler to it. *)
Definition unhandledRejection (s : Invocation) : option JsVal :=
  match computation s with
  | Some _ => None
  | None => abortedPromise s
  end.

(** ** Values without accessors

    On a value whose reads run no code the functions above are ordinary
    functions; these are their results (see [read_data],
    [miniSerializeError_data] and [rejected_data]). *)

Definition accessors (v : JsVal) : bool :=
  match v with JAccessors _ _ => true | _ => false end.

(** One turn of the loop when every read of property [p] gives [f p]. *)
Definition copied (f : string → JsVal) (simpleError : gmap string JsVal)
    (property : string) : gmap string JsVal :=
  if is_string (f property)
  then <[property := f property]> simpleError
  else simpleError.

Definition simpleError (value : JsVal) : JsVal :=
  if is_object value
  then JObj PlainObject (foldl (copied (get value)) ∅ commonProperties)
  else JObj PlainObject {[ "message" := JStr (String_ value) ]}.

Definition serialized (thunk : AsyncThunk) (value : JsVal) : JsVal :=
  match options thunk ≫= AsyncThunkOptions.serializeError with
  | Some serializeError => serializeError value
  | None => simpleError value
  end.

Definition rejectedData (thunk : AsyncThunk) (error : JsVal) (requestId : string)
    (arg : JsVal) : Action :=
  createAction (typePrefix thunk +:+ "/rejected")
    {| prepared_payload := if instanceofRejectWithValue error
                           then get error "payload" else JUndefined;
       prepared_error := Some (serialized thunk (js_or error (JStr "Rejected")));
       prepared_meta :=
         Some {| arg := arg; requestId := requestId;
                 rejectedWithValue := Some (instanceofRejectWithValue error);
                 requestStatus := StatusRejected;
                 aborted := Some (truthy error && is_str "AbortError" (get error "name"));
                 condition :=
                   Some (truthy error && is_str "ConditionError" (get error "name")) |} |}.

(** ** Reachable states *)

(** The gate stops the call before it starts: it returned exactly [false], or
    it threw. *)
Definition gateBlocks (host : Host) (thunk : AsyncThunk) (arg : JsVal) : bool :=
  match gate host thunk arg with
  | Some (Throws _) | Some (Returns (JBool false)) => true
  | _ => false
  end.

(** The actions a call can end with. *)
Inductive terminal (host : Host) (thunk : AsyncThunk) (arg : JsVal) : Action → Prop :=
| terminal_fulfilled v :
    instanceofRejectWithValue v = false →
    terminal host thunk arg (fulfilled thunk v (theRequestId host thunk) arg)
| terminal_rejected e a :
    rejected thunk e (theRequestId host thunk) arg = Returns a →
    terminal host thunk arg a.

(** What was dispatched once the call has ended with [a]. *)
Definition dispatched (thunk : AsyncThunk) (a : Action) : list Action :=
  if skipDispatch thunk a then [] else [a].

(** The shapes of a reachable state. *)
Inductive shape (host : Host) (thunk : AsyncThunk) (arg : JsVal) (s : Invocation) : Prop :=
| shape_created :
    phase s = Created → started s = false → signalAborted s = false →
    abortedPromise s = None → computation s = None →
    promise s = None → thrown s = None → sink s = [] →
    shape host thunk arg s
| shape_blocked a :
    gateBlocks host thunk arg = true →
    phase s = Settled → started s = false → terminal host thunk arg a →
    promise s = Some a → thrown s = None → sink s = dispatched thunk a →
    shape host thunk arg s
| shape_blocked_thrown x :
    gateBlocks host thunk arg = true →
    phase s = Settled → started s = false →
    promise s = None → thrown s = Some x → sink s = [] →
    shape host thunk arg s
| shape_running p :
    gateBlocks host thunk arg = false →
    phase s = Running → started s = true → signalAborted s = false →
    computation s = Some p → promise s = None → thrown s = None →
    sink s = [pending thunk (theRequestId host thunk) arg] →
    shape host thunk arg s
| shape_settled a :
    gateBlocks host thunk arg = false →
    phase s = Settled → started s = true → terminal host thunk arg a →
    promise s = Some a → thrown s = None →
    sink s = pending thunk (theRequestId host thunk) arg :: dispatched thunk a →
    shape host thunk arg s
| shape_settled_thrown x :
    gateBlocks host thunk arg = false →
    phase s = Settled → started s = true →
    promise s = None → thrown s = Some x →
    sink s = [pending thunk (theRequestId host thunk) arg] →
    shape host thunk arg s.

Global Instance Event_eq_dec : EqDecision Event.
Proof. solve_decision. Defined.

(** The reason given to [abort], or the default: what [abortReason || 'Aborted']
    is for a reason that is a string or [undefined]. *)
Definition abortMessage (reason : option string) : string :=
  match reason with
  | Some r => if String.eqb r EmptyString then "Aborted" else r
  | None => "Aborted"
  end.

(** How the async function ends for the payload creator's result when
    nothing aborts the call first: with a final action, or with the exception
    of [rejected] in the [catch] clause. *)
Definition completion (host : Host) (thunk : AsyncThunk) (arg : JsVal)
    (r : PayloadResult) : option (Result Action JsVal) :=
  let rid := theRequestId host thunk in
  match r with
  | ThrowsSync e | ReturnsPromise (RejectsWith e) => Some (rejected thunk e rid arg)
  | ReturnsValue v | ReturnsPromise (Resolves v) =>
      Some (if instanceofRejectWithValue v
            then match rejected thunk v rid arg with
                 | Returns a => Returns a
                 | Throws x => rejected thunk x rid arg
                 end
            else Returns (fulfilled thunk v rid arg))
  | ReturnsPromise NeverSettles => None
  end.

(** An action of this call: its [meta] names the request id and the
    argument of the call. *)
Definition correlated (host : Host) (thunk : AsyncThunk) (arg0 : JsVal) (a : Action) : Prop :=
  ∃ m, meta a = Some m
       ∧ requestId m = default (nanoid host) (options thunk ≫= AsyncThunkOptions.idGenerator)
       ∧ arg m = arg0.

(** ** What ends a call *)

Definition isAbort (e : Event) : bool :=
  match e with Abort _ => true | _ => false end.

(** A trace without its calls of [abort]. *)
Definition withoutAborts (events : list Event) : list Event :=
  filter (λ e, negb (isAbort e)) events.

(** What the [catch] clause receives when the condition ends the [try]
    block: the exception of the condition, or the condition error when it
    returned [false]. *)
Definition gateError (host : Host) (thunk : AsyncThunk) (arg : JsVal) : option JsVal :=
  match gate host thunk arg with
  | Some (Throws e) => Some e
  | Some (Returns (JBool false)) => Some conditionError
  | _ => None
  end.

(** The promise the body waits on, [Promise.resolve(payloadCreator(...))],
    when the payload creator returned. *)
Definition awaited (r : PayloadResult) : option Settlement :=
  match r with
  | ThrowsSync _ => None
  | ReturnsValue v => Some (Resolves v)
  | ReturnsPromise p => Some p
  end.

(** How a call that has ended has ended: with the action its promise
    resolved to, or with the exception its promise was rejected with. *)
Definition ending (s : Invocation) : option (Result Action JsVal) :=
  match promise s, thrown s with
  | Some a, _ => Some (Returns a)
  | None, Some x => Some (Throws x)
  | None, None => None
  end.

(** What a call that has ended dispatched at its end. *)
Definition dispatchedBy (thunk : AsyncThunk) (o : option (Result Action JsVal)) :
    list Action :=
  match o with
  | Some (Returns a) => dispatched thunk a
  | _ => []
  end.

(** Two states of a call that differ at most in [abortReason], the variable
    only the ['abort'] listener reads. *)
Definition sameCall (s s' : Invocation) : Prop :=
  started s = started s' ∧ signalAborted s = signalAborted s'
  ∧ abortedPromise s = abortedPromise s' ∧ computation s = computation s'
  ∧ phase s = phase s' ∧ sink s = sink s' ∧ promise s = promise s'
  ∧ thrown s = thrown s'.

(** How many reads of [error] the prepare callback of [rejected] has made
    when it calls the serializer: two of [name] when [error] is truthy, and
    one of [payload] when it is a [RejectWithValue]. *)
Definition readsBeforeSerializer (error : JsVal) : nat :=
  (if truthy error then 2 else 0) + (if instanceofRejectWithValue error then 1 else 0).

(** The reason of the first call of [abort] in a trace. *)
Fixpoint firstAbort (events : list Event) : option (option string) :=
  match events with
  | [] => None
  | Abort reason :: _ => Some reason
  | _ :: events => firstAbort events
  end.

(** ** Several calls of one thunk

    The calls of a thunk share nothing but [displayedWarning], the variable
    of [createAsyncThunk] that the class standing in for [AbortController]
    sets when it prints its notice.  [production] says whether
    [process.env.NODE_ENV] is ['production'], [platform] whether
    [AbortController] is defined. *)

Record Console := {
  displayedWarning : bool;
  infos : list string;   (* what was passed to [console.info], oldest first *)
}.

Definition notice : string :=
  "This platform does not implement AbortController. 
If you want to use the AbortController to react to `abort` events, please consider importing a polyfill like 'abortcontroller-polyfill/dist/abortcontroller-polyfill-only'.".

(** [abort()] of the class that stands in for [AbortController]. *)
Definition fallbackAbort (production : bool) (c : Console) : Console :=
  if production then c
  else if displayedWarning c then c
  else {| displayedWarning := true; infos := infos c ++ [notice] |}.

Record Call := {
  callHost : Host;
  callArg : JsVal;
  callState : Invocation;
}.

Record Calls := {
  console : Console;
  calls : list Call;
}.

Inductive CallEvent :=
| NewCall (id : string) (state extra arg : JsVal)  (* [thunk(arg)] is handed to the store *)
| OnCall (i : nat) (e : Event).                    (* something happens to the i-th call *)

Definition noCalls : Calls :=
  {| console := {| displayedWarning := false; infos := [] |}; calls := [] |}.

Definition callsStep (production platform : bool) (thunk : AsyncThunk)
    (t : Calls) (ev : CallEvent) : Calls :=
  match ev with
  | NewCall id state extra arg =>
      {| console := console t;
         calls := calls t ++
                  [ {| callHost := {| hasAbortController := platform; nanoid := id;
                                      getState := state; extra := extra |};
                       callArg := arg;
                       callState := initial |} ] |}
  | OnCall i e =>
      match calls t !! i with
      | None => t
      | Some c =>
          {| console :=
               match e with
               | Abort _ =>
                   if started (callState c) && negb platform
                   then fallbackAbort production (console t)
                   else console t
               | _ => console t
               end;
             calls :=
               <[i := {| callHost := callHost c; callArg := callArg c;
                         callState := step (callHost c) thunk (callArg c) (callState c) e |}]>
                 (calls t) |}
      end
  end.

Definition callsRun (production platform : bool) (thunk : AsyncThunk)
    (events : list CallEvent) : Calls :=
  foldl (callsStep production platform thunk) noCalls events.

(** ** Sample calls *)

Definition browser : Host :=
  {| hasAbortController := true; nanoid := "r1"; getState := JNull; extra := JUndefined |}.

(** A platform without [AbortController]. *)
Definition legacyPlatform : Host :=
  {| hasAbortController := false; nanoid := "r1"; getState := JNull; extra := JUndefined |}.

(** [createAsyncThunk('todos/fetch', payloadCreator, options)] for a payload
    creator that behaves as [result] says. *)
Definition fetchTodos (result : PayloadResult) (options : option AsyncThunkOptions.t) :
    AsyncThunk :=
  {| typePrefix := "todos/fetch";
     payloadCreator := λ _ _ _ _, result;
     options := options |}.

(** [{ condition: () => false }] *)
Definition conditionFalse : option AsyncThunkOptions.t :=
  Some {| AsyncThunkOptions.condition := Some (λ _ _ _, Returns (JBool false));
          AsyncThunkOptions.dispatchConditionRejection := None;
          AsyncThunkOptions.serializeError := None;
          AsyncThunkOptions.idGenerator := None |}.


(** [{ serializeError: () => null }] *)
Definition serializeToNull : option AsyncThunkOptions.t :=
  Some {| AsyncThunkOptions.condition := None;
          AsyncThunkOptions.dispatchConditionRejection := None;
          AsyncThunkOptions.serializeError := Some (λ _, JNull);
          AsyncThunkOptions.idGenerator := None |}.

(** The numbers [0], [1], [7], [42] and [404]. *)
Definition zero : JsVal := JNum "0" false.
Definition seven : JsVal := JNum "7" true.
Definition fortyTwo : JsVal := JNum "42" true.
Definition fourOhFour : JsVal := JNum "404" true.

(** [{ name: 'HttpError', message: 'boom', status: 404 }] *)
Definition httpError : JsVal :=
  JObj PlainObject
    (<["name" := JStr "HttpError"]>
       (<["message" := JStr "boom"]> {[ "status" := fourOhFour ]})).

(** [{ get name() { throw 'trap' } }] *)
Definition throwingName : JsVal :=
  JAccessors PlainObject
    (λ _ p, if String.eqb p "name" then Throws (JStr "trap") else Returns JUndefined).



(** * Properties *)

(** ** Reads of values without accessors *)

Lemma read_data n v p : accessors v = false → read n v p = Returns (get v p).
Proof. by destruct v. Qed.

Lemma js_or_data a b : accessors a = false → accessors b = false → accessors (js_or a b) = false.
Proof. unfold js_or. by destruct (truthy a). Qed.

(** The loop of [miniSerializeError] on a value whose reads of the
    properties in question all give what [f] says. *)
Lemma forOf_copyProperty value f properties :
  (∀ n p, p ∈ properties → read n value p = Returns (f p)) →
  ∀ acc n, ∃ n',
    forOf (copyProperty value) acc properties n
    = Returns (foldl (copied f) acc properties, n').
Proof.
  induction properties as [|p properties IH]; intros Hf acc n; simpl.
  - by eexists.
  - unfold mbind, Reads_bind, copyProperty at 1, readProperty, copied at 2.
    unfold mbind, Reads_bind.
    rewrite (Hf n p) by apply list_elem_of_here.
    destruct (is_string (f p)).
    + rewrite (Hf (S n) p) by apply list_elem_of_here. simpl.
      apply IH. intros m q Hq. apply Hf. by apply list_elem_of_further.
    + simpl. apply IH. intros m q Hq. apply Hf. by apply list_elem_of_further.
Qed.


Lemma miniSerializeErrorReads_stable value f n :
  is_object value = true →
  (∀ m p, p ∈ commonProperties → read m value p = Returns (f p)) →
  ∃ n', miniSerializeErrorReads value n
        = Returns (JObj PlainObject (foldl (copied f) ∅ commonProperties), n').
Proof.
  intros Hobj Hf. unfold miniSerializeErrorReads. rewrite Hobj.
  unfold mbind, Reads_bind.
  destruct (forOf_copyProperty value f commonProperties Hf ∅ n) as [n' ->].
  by eexists.
Qed.

Lemma miniSerializeErrorReads_data value n :
  accessors value = false →
  ∃ n', miniSerializeErrorReads value n = Returns (simpleError value, n').
Proof.
  intros Hd. unfold simpleError. destruct (is_object value) eqn:Hobj.
  - apply miniSerializeErrorReads_stable; [done|]. intros m p _. by apply read_data.
  - unfold miniSerializeErrorReads. rewrite Hobj. by eexists.
Qed.


Lemma serializer_data thunk value n :
  accessors value = false →
  ∃ n', serializer thunk value n = Returns (serialized thunk value, n').
Proof.
  intros Hd. unfold serializer, serialized.
  destruct (options thunk ≫= AsyncThunkOptions.serializeError); [by eexists|].
  by apply miniSerializeErrorReads_data.
Qed.

Lemma serialized_default thunk value :
  (options thunk ≫= AsyncThunkOptions.serializeError) = None →
  serialized thunk value = simpleError value.
Proof. unfold serialized. by intros ->. Qed.

Lemma serialized_custom thunk f value :
  (options thunk ≫= AsyncThunkOptions.serializeError) = Some f →
  serialized thunk value = f value.
Proof. unfold serialized. by intros ->. Qed.


(** ** The action creators *)

(** On an error without accessors [rejected] returns, and what it returns is
    [rejectedData]. *)
Lemma rejected_data thunk e rid arg :
  accessors e = false →
  rejected thunk e rid arg = Returns (rejectedData thunk e rid arg).
Proof.
  intros Hd. unfold rejected, runReads, rejectedPrepare, named.
  unfold mbind, mret, Reads_bind, Reads_ret, readProperty.
  assert (Hor : accessors (js_or e (JStr "Rejected")) = false) by (by apply js_or_data).
  destruct (truthy e) eqn:Ht; simpl; rewrite ?read_data by done;
    destruct (instanceofRejectWithValue e) eqn:Hi; simpl; rewrite ?read_data by done;
    match goal with |- context [serializer thunk ?v ?n] =>
      destruct (serializer_data thunk v n Hor) as [n' ->] end;
    unfold rejectedData; by rewrite ?Ht, ?Hi.
Qed.

(** What is known of an action that [rejected] returned. *)
Lemma rejected_inv thunk e rid arg0 a :
  rejected thunk e rid arg0 = Returns a →
  ∃ ab co pl se,
    a = createAction (typePrefix thunk +:+ "/rejected")
          {| prepared_payload := pl;
             prepared_error := Some se;
             prepared_meta :=
               Some {| arg := arg0; requestId := rid;
                       rejectedWithValue := Some (instanceofRejectWithValue e);
                       requestStatus := StatusRejected;
                       aborted := Some ab; condition := Some co |} |}
    ∧ (instanceofRejectWithValue e = false → pl = JUndefined).
Proof.
  unfold rejected, runReads.
  destruct (rejectedPrepare thunk e rid arg0 0) as [[p n]|x] eqn:Hp; intros [= <-].
  unfold rejectedPrepare, named, readProperty in Hp.
  unfold mbind, Reads_bind, mret, Reads_ret in Hp.
  remember (instanceofRejectWithValue e) as inst eqn:Hinst.
  remember (truthy e) as tr eqn:Htr.
  remember (js_or e (JStr "Rejected")) as e' eqn:He'.
  destruct tr, inst; repeat case_match; simplify_eq;
    do 4 eexists; (split; [reflexivity|]); done.
Qed.

Lemma tag_pending_rejected prefix : prefix +:+ "/pending" ≠ prefix +:+ "/rejected".
Proof. intros H. apply (inj (String.append prefix)) in H. discriminate. Qed.

Lemma tag_pending_fulfilled prefix : prefix +:+ "/pending" ≠ prefix +:+ "/fulfilled".
Proof. intros H. apply (inj (String.append prefix)) in H. discriminate. Qed.


Lemma rejected_type thunk e rid arg a :
  rejected thunk e rid arg = Returns a → type a = typePrefix thunk +:+ "/rejected".
Proof. intros (ab & co & pl & se & -> & _)%rejected_inv. done. Qed.

Lemma matches_rejected thunk e rid arg a :
  rejected thunk e rid arg = Returns a →
  matches (typePrefix thunk +:+ "/rejected") a = true.
Proof. intros H. unfold matches. rewrite (rejected_type _ _ _ _ _ H). apply String.eqb_refl. Qed.


Lemma rejected_rejectedWithValue thunk e rid arg a :
  rejected thunk e rid arg = Returns a →
  flag a rejectedWithValue = instanceofRejectWithValue e.
Proof. intros (ab & co & pl & se & -> & _)%rejected_inv. done. Qed.

(** The flags of the rejected action of an error without accessors. *)
Lemma rejectedData_aborted thunk e rid arg :
  flag (rejectedData thunk e rid arg) aborted
  = truthy e && is_str "AbortError" (get e "name").
Proof. reflexivity. Qed.

Lemma rejectedData_condition thunk e rid arg :
  flag (rejectedData thunk e rid arg) condition
  = truthy e && is_str "ConditionError" (get e "name").
Proof. reflexivity. Qed.

Lemma rejected_conditionError thunk rid arg :
  rejected thunk conditionError rid arg
  = Returns (rejectedData thunk conditionError rid arg)
  ∧ flag (rejectedData thunk conditionError rid arg) condition = true
  ∧ flag (rejectedData thunk conditionError rid arg) aborted = false
  ∧ flag (rejectedData thunk conditionError rid arg) rejectedWithValue = false.
Proof. split; [by apply rejected_data|]. by vm_compute. Qed.

Lemma rejected_abortError thunk reason rid arg :
  rejected thunk (abortError reason) rid arg
  = Returns (rejectedData thunk (abortError reason) rid arg)
  ∧ flag (rejectedData thunk (abortError reason) rid arg) aborted = true
  ∧ flag (rejectedData thunk (abortError reason) rid arg) condition = false
  ∧ flag (rejectedData thunk (abortError reason) rid arg) rejectedWithValue = false.
Proof. split; [by apply rejected_data|]. by vm_compute. Qed.

Lemma newRejectWithValue_payload v : get (newRejectWithValue v) "payload" = v.
Proof. by vm_compute. Qed.

(** ** Runs of one invocation *)

Section runs.
Context (host : Host) (thunk : AsyncThunk) (arg : JsVal).

Local Abbreviation rid := (theRequestId host thunk).
Local Abbreviation step := (step host thunk arg).
Local Abbreviation run := (run host thunk arg).
Local Abbreviation shape := (shape host thunk arg).

Lemma body_blocked s :
  gateBlocks host thunk arg = true →
  ∃ e, body host thunk arg s = catch host thunk arg e s.
Proof.
  unfold gateBlocks, body. destruct (gate host thunk arg) as [[[]|]|]; try done.
  - destruct b; [done|]. by exists conditionError.
  - by eexists.
Qed.

Lemma body_passes s :
  gateBlocks host thunk arg = false → body host thunk arg s = start host thunk arg s.
Proof.
  unfold gateBlocks, body. destruct (gate host thunk arg) as [[[]|]|]; try done.
  by destruct b.
Qed.

(** The [catch] clause ends the call, one way or the other. *)
Lemma catch_cases e s :
  (∃ a, rejected thunk e rid arg = Returns a
        ∧ catch host thunk arg e s = finish thunk a s)
  ∨ (∃ x, rejected thunk e rid arg = Throws x
          ∧ catch host thunk arg e s = escape x s).
Proof. unfold catch. destruct (rejected thunk e rid arg); eauto. Qed.

(** So does the promise of the payload creator when it settles. *)
Lemma settled_cases p s :
  p ≠ NeverSettles →
  (∃ a, terminal host thunk arg a ∧ settled host thunk arg p s = finish thunk a s)
  ∨ (∃ x, settled host thunk arg p s = escape x s).
Proof.
  intros Hp. destruct p as [v|e|]; [| |done]; simpl.
  - destruct (instanceofRejectWithValue v) eqn:Hv.
    + destruct (rejected thunk v rid arg) as [a|x] eqn:Hr.
      * left. exists a. split; [by eapply terminal_rejected|done].
      * destruct (catch_cases x s) as [(a & Ha & ->)|(y & _ & ->)]; [left|right; eauto].
        exists a. split; [by eapply terminal_rejected|done].
    + left. eexists. split; [by apply terminal_fulfilled|done].
  - destruct (catch_cases e s) as [(a & Ha & ->)|(y & _ & ->)]; [left|right; eauto].
    exists a. split; [by eapply terminal_rejected|done].
Qed.

Lemma shape_initial : shape (initial).
Proof. by apply shape_created. Qed.

Lemma shape_step s e : shape s → shape (step s e).
Proof.
  intros [Hp Hst Hsig Hab Hco Hpr Hth Hsk | a Hg Hp Hst Ht Hpr Hth Hsk
         | x Hg Hp Hst Hpr Hth Hsk
         | p Hg Hp Hst Hsig Hc Hpr Hth Hsk | a Hg Hp Hst Ht Hpr Hth Hsk
         | x Hg Hp Hst Hpr Hth Hsk];
    destruct e as [|reason|]; simpl; unfold abort; rewrite ?Hp, ?Hst;
    try (by eauto using shape_created, shape_blocked, shape_blocked_thrown,
              shape_running, shape_settled, shape_settled_thrown).
  - (* the body runs *)
    destruct (gateBlocks host thunk arg) eqn:Hg.
    + destruct (body_blocked s Hg) as [e ->].
      destruct (catch_cases e s) as [(a & Ha & ->)|(x & _ & ->)].
      * apply (shape_blocked _ _ _ _ a); simpl; eauto using terminal_rejected.
        rewrite Hsk. unfold dispatched. by case_match.
      * by apply (shape_blocked_thrown _ _ _ _ x).
    + rewrite (body_passes s Hg). unfold start.
      destruct (payloadCreator thunk arg rid (getState host) (extra host)) as [e|v|p].
      * match goal with |- context [catch _ _ _ e ?s1] =>
          destruct (catch_cases e s1) as [(a & Ha & ->)|(x & _ & ->)] end.
        -- apply (shape_settled _ _ _ _ a); simpl; eauto using terminal_rejected.
           rewrite Hsk. unfold dispatched. by case_match.
        -- apply (shape_settled_thrown _ _ _ _ x); simpl; auto. by rewrite Hsk.
      * apply (shape_running _ _ _ _ (Resolves v)); simpl; auto. by rewrite Hsk.
      * apply (shape_running _ _ _ _ p); simpl; auto. by rewrite Hsk.
  - (* abort while the body waits *)
    unfold abortController_abort; simpl. destruct (hasAbortController host).
    + rewrite ?Hsig, ?Hp; simpl.
      match goal with |- context [catch _ _ _ ?e ?s1] =>
        destruct (catch_cases e s1) as [(a & Ha & ->)|(x & _ & ->)] end.
      * apply (shape_settled _ _ _ _ a); simpl; eauto using terminal_rejected.
        rewrite Hsk. unfold dispatched. by case_match.
      * by apply (shape_settled_thrown _ _ _ _ x).
    + by apply (shape_running _ _ _ _ p).
  - (* the computation settles while the body waits *)
    rewrite Hc.
    assert (Hcases : p = NeverSettles ∨ p ≠ NeverSettles) by (destruct p; auto).
    destruct Hcases as [->|Hn].
    + by apply (shape_running _ _ _ _ NeverSettles).
    + destruct (settled_cases p s Hn) as [(a & Ha & ->)|(x & ->)].
      * apply (shape_settled _ _ _ _ a); simpl; auto.
        rewrite Hsk. unfold dispatched. by case_match.
      * by apply (shape_settled_thrown _ _ _ _ x).
  - (* abort after the end *)
    unfold abortController_abort; simpl.
    destruct (hasAbortController host), (signalAborted s); rewrite ?Hp;
      by apply (shape_settled _ _ _ _ a).
  - unfold abortController_abort; simpl.
    destruct (hasAbortController host), (signalAborted s); rewrite ?Hp;
      by apply (shape_settled_thrown _ _ _ _ x).
Qed.

Lemma shape_foldl s events : shape s → shape (foldl step s events).
Proof.
  revert s. induction events as [|e events IH]; intros s Hs; [done|].
  simpl. apply IH, shape_step, Hs.
Qed.

Lemma shape_run events : shape (run events).
Proof. apply shape_foldl, shape_initial. Qed.

(** The promise of a call resolves to a fulfilled or a rejected action of
    this thunk. *)
Lemma promise_terminal events a :
  promise (run events) = Some a → terminal host thunk arg a.
Proof.
  destruct (shape_run events)
    as [_ _ _ _ _ Hpr _ _ | b _ _ _ Ht Hpr _ _ | x _ _ _ Hpr _ _
       | c _ _ _ _ _ Hpr _ _ | b _ _ _ Ht Hpr _ _ | x _ _ _ Hpr _ _];
    rewrite Hpr; by intros [= <-].
Qed.
End runs.

Section run_lemmas.
Context (host : Host) (thunk : AsyncThunk) (arg : JsVal).

Local Abbreviation rid := (theRequestId host thunk).
Local Abbreviation step := (step host thunk arg).
Local Abbreviation run := (run host thunk arg).

(** [if (started) { ... }]: nothing happens otherwise. *)
Lemma abort_unstarted reason s :
  started s = false → abort host thunk arg reason s = s.
Proof. unfold abort. by intros ->. Qed.

(** Before the body is entered only [Invoke] changes the state. *)
Lemma created_idle events :
  Invoke ∉ events → foldl step (initial) events = initial.
Proof.
  induction events as [|e events IH]; [done|].
  intros Hin. apply not_elem_of_cons in Hin as [Hne Hin].
  destruct e; [done| |]; simpl; by apply IH.
Qed.

Lemma run_app pre post : run (pre ++ post) = foldl step (run pre) post.
Proof. apply foldl_app. Qed.

Lemma run_invoked events :
  Invoke ∈ events →
  ∃ post, run events = foldl step (body host thunk arg (initial)) post.
Proof.
  intros Hin. apply list_elem_of_split_l in Hin as (pre & post & -> & Hpre).
  exists post. rewrite run_app. unfold run at 1. by rewrite (created_idle pre Hpre).
Qed.

(** A call that ended without starting does not react to anything. *)
Lemma unstarted_settled_idle s events :
  started s = false → phase s = Settled → foldl step s events = s.
Proof.
  intros Hst Hp. induction events as [|e events IH]; [done|].
  destruct e; simpl; rewrite ?Hp, ?(abort_unstarted _ _ Hst); apply IH.
Qed.

(** Once the async function is over, neither its outcome nor what was
    dispatched changes. *)
Lemma settled_step s e :
  phase s = Settled →
  phase (step s e) = Settled ∧ promise (step s e) = promise s
  ∧ sink (step s e) = sink s ∧ computation (step s e) = computation s
  ∧ thrown (step s e) = thrown s.
Proof.
  intros Hp. destruct e as [|reason|]; simpl; rewrite ?Hp; [done| |done].
  unfold abort, abortController_abort.
  destruct (started s); [|done]. simpl.
  destruct (hasAbortController host); [|done].
  destruct (signalAborted s); [done|]. by rewrite Hp.
Qed.

Lemma settled_stable s events :
  phase s = Settled →
  phase (foldl step s events) = Settled
  ∧ promise (foldl step s events) = promise s
  ∧ sink (foldl step s events) = sink s
  ∧ thrown (foldl step s events) = thrown s
  ∧ computation (foldl step s events) = computation s.
Proof.
  revert s. induction events as [|e events IH]; intros s Hp; [done|].
  destruct (settled_step s e Hp) as (Hp' & Hpr & Hsk & Hco & Hth).
  simpl. destruct (IH _ Hp') as (? & ? & ? & ? & ?).
  by rewrite <- Hpr, <- Hsk, <- Hco, <- Hth.
Qed.

Lemma blocked_run events :
  gateBlocks host thunk arg = true → Invoke ∈ events →
  run events = body host thunk arg (initial).
Proof.
  intros Hg Hin. destruct (run_invoked events Hin) as [post ->].
  destruct (body_blocked host thunk arg (initial) Hg) as [e He].
  rewrite He. apply unstarted_settled_idle.
  - by destruct (catch_cases host thunk arg e (initial)) as [(a & _ & ->)|(x & _ & ->)].
  - by destruct (catch_cases host thunk arg e (initial)) as [(a & _ & ->)|(x & _ & ->)].
Qed.

Lemma pending_not_terminal a :
  terminal host thunk arg a → pending thunk rid arg ≠ a.
Proof.
  intros [v _|e b Hb] H; apply (f_equal type) in H.
  - by apply tag_pending_fulfilled in H.
  - rewrite (rejected_type _ _ _ _ _ Hb) in H. by apply tag_pending_rejected in H.
Qed.

Lemma skipDispatch_unconditioned a :
  flag a condition = false → skipDispatch thunk a = false.
Proof.
  unfold skipDispatch. intros ->. destruct (options thunk); [|done].
  apply andb_false_r.
Qed.
End run_lemmas.

(** ** The condition *)

(** C1, as amended.  When the condition returns exactly [false], the call
    ends with the rejected action built from the condition error, whose
    [meta.condition] is [true]; that action is dispatched if and only if the
    option [dispatchConditionRejection] is [true], and when the option is
    absent nothing at all is dispatched. *)
Theorem condition_rejection_dispatch host thunk arg o events :
  options thunk = Some o →
  gate host thunk arg = Some (Returns (JBool false)) →
  Invoke ∈ events →
  let s := run host thunk arg events in
  ∃ a, rejected thunk conditionError (theRequestId host thunk) arg = Returns a
    ∧ promise s = Some a
    ∧ flag a condition = true
    ∧ (a ∈ sink s ↔ AsyncThunkOptions.dispatchConditionRejection o = Some true)
    ∧ (AsyncThunkOptions.dispatchConditionRejection o = None → sink s = []).
Proof.
  intros Ho Hgate Hin s.
  destruct (rejected_conditionError thunk (theRequestId host thunk) arg) as (Hr & Hc & _).
  set (a := rejectedData thunk conditionError (theRequestId host thunk) arg) in *.
  exists a. split; [done|].
  assert (Hg : gateBlocks host thunk arg = true) by (unfold gateBlocks; by rewrite Hgate).
  assert (Hs : s = finish thunk a (initial)).
  { unfold s. rewrite (blocked_run _ _ _ _ Hg Hin). unfold body, catch.
    by rewrite Hgate, Hr. }
  assert (Hskip : skipDispatch thunk a
                  = negb (default false (AsyncThunkOptions.dispatchConditionRejection o))).
  { unfold skipDispatch. rewrite Ho, (matches_rejected _ _ _ _ _ Hr), Hc.
    by rewrite !andb_true_r. }
  rewrite Hs. simpl. rewrite Hskip.
  split; [done|]. split; [done|].
  destruct (AsyncThunkOptions.dispatchConditionRejection o) as [[]|]; simpl.
  - split; [|done]. split; [done|]. intros _. apply list_elem_of_singleton. done.
  - split; [|done]. split; [|done]. intros H. by apply not_elem_of_nil in H.
  - split; [|done]. split; [|done]. intros H. by apply not_elem_of_nil in H.
Qed.

Lemma condition_rejection_dispatch_witness :
  let thunk := fetchTodos (ReturnsValue (JStr "ok")) conditionFalse in
  let s := run browser thunk JUndefined [Invoke] in
  ∃ a, rejected thunk conditionError (theRequestId browser thunk) JUndefined = Returns a
    ∧ promise s = Some a
    ∧ flag a condition = true
    ∧ (a ∈ sink s ↔ @None bool = Some true)
    ∧ (@None bool = None → sink s = []).
Proof.
  apply (condition_rejection_dispatch browser
           (fetchTodos (ReturnsValue (JStr "ok")) conditionFalse) JUndefined
           _ [Invoke] eq_refl eq_refl).
  apply list_elem_of_here.
Defined.

(** C1: with the option absent the condition rejection is not dispatched. *)
Lemma condition_rejection_not_dispatched_by_default :
  let thunk := fetchTodos (ReturnsValue (JStr "ok")) conditionFalse in
  let s := run browser thunk JUndefined [Invoke] in
  gate browser thunk JUndefined = Some (Returns (JBool false))
  ∧ (options thunk ≫= AsyncThunkOptions.dispatchConditionRejection) = None
  ∧ (∃ a, rejected thunk conditionError "r1" JUndefined = Returns a
          ∧ promise s = Some a ∧ ¬ (a ∈ sink s))
  ∧ sink s = [].
Proof.
  split; [reflexivity|]. split; [reflexivity|]. split; [|reflexivity].
  eexists. split; [reflexivity|]. split; [reflexivity|].
  intros H. by apply not_elem_of_nil in H.
Qed.

(** C4, as amended.  When the condition returns exactly [false], no pending
    action is dispatched and the call ends with a rejected action whose
    [meta] has [condition = true], [aborted = false] and
    [rejectedWithValue = false]; the action is built from the condition
    error object [{ name: 'ConditionError', message: ... }], not from
    [null], and its [error] property is the serialized form of that object. *)
Theorem condition_rejection_action host thunk arg events :
  gate host thunk arg = Some (Returns (JBool false)) →
  Invoke ∈ events →
  let s := run host thunk arg events in
  ∃ a, rejected thunk conditionError (theRequestId host thunk) arg = Returns a
    ∧ promise s = Some a
    ∧ started s = false
    ∧ (pending thunk (theRequestId host thunk) arg ∉ sink s)
    ∧ flag a condition = true ∧ flag a aborted = false
    ∧ flag a rejectedWithValue = false
    ∧ payload a = JUndefined
    ∧ (∀ f, (options thunk ≫= AsyncThunkOptions.serializeError) = Some f →
         error a = Some (f conditionError))
    ∧ ((options thunk ≫= AsyncThunkOptions.serializeError) = None →
       error a = Some (JObj PlainObject
                         (<["name" := JStr "ConditionError"]>
                            {[ "message" :=
                                 JStr "Aborted due to condition callback returning false." ]})))
    ∧ rejected thunk JNull (theRequestId host thunk) arg ≠ Returns a.
Proof.
  intros Hgate Hin s.
  destruct (rejected_conditionError thunk (theRequestId host thunk) arg)
    as (Hr & Hc & Ha & Hw).
  set (a := rejectedData thunk conditionError (theRequestId host thunk) arg) in *.
  exists a. split; [done|].
  assert (Hg : gateBlocks host thunk arg = true) by (unfold gateBlocks; by rewrite Hgate).
  assert (Hs : s = finish thunk a (initial)).
  { unfold s. rewrite (blocked_run _ _ _ _ Hg Hin). unfold body, catch.
    by rewrite Hgate, Hr. }
  rewrite Hs. split_and!; try done.
  - simpl. destruct (skipDispatch thunk a).
    + apply not_elem_of_nil.
    + intros H%list_elem_of_singleton. revert H.
      apply pending_not_terminal. by eapply terminal_rejected.
  - intros f Hf. simpl. by rewrite (serialized_custom _ f _ Hf).
  - intros Hser. simpl. rewrite (serialized_default _ _ Hser). by vm_compute.
  - rewrite rejected_data by done. by intros [= H].
Qed.

Lemma condition_rejection_action_witness :
  let thunk := fetchTodos (ReturnsValue (JStr "ok")) conditionFalse in
  ∃ a, rejected thunk conditionError (theRequestId browser thunk) JUndefined = Returns a
    ∧ promise (run browser thunk JUndefined [Invoke; Abort None; ComputationSettles])
      = Some a.
Proof.
  destruct (condition_rejection_action browser
              (fetchTodos (ReturnsValue (JStr "ok")) conditionFalse) JUndefined
              [Invoke; Abort None; ComputationSettles] eq_refl (list_elem_of_here _ _))
    as (a & H1 & H2 & _).
  exists a. exact (conj H1 H2).
Defined.

(** C4: the rejected action of a skipped call is built from the condition
    error, and its [error] property is an object, not [null]. *)
Lemma condition_rejection_error_not_null :
  let thunk := fetchTodos (ReturnsValue (JStr "ok")) conditionFalse in
  let s := run browser thunk JUndefined [Invoke] in
  gate browser thunk JUndefined = Some (Returns (JBool false))
  ∧ Returns <$> promise s = Some (rejected thunk conditionError "r1" JUndefined)
  ∧ Returns <$> promise s ≠ Some (rejected thunk JNull "r1" JUndefined)
  ∧ (promise s ≫= error)
    = Some (JObj PlainObject
              (<["name" := JStr "ConditionError"]>
                 {[ "message" :=
                      JStr "Aborted due to condition callback returning false." ]}))
  ∧ (promise s ≫= error) ≠ Some JNull.
Proof.
  split; [reflexivity|]. split; [reflexivity|]. split; [|split].
  - intros H. vm_compute in H. discriminate.
  - by vm_compute.
  - intros H. vm_compute in H. discriminate.
Qed.

(** ** [abort] before the start *)

(** C7.  While [started] is [false] a call of [abort] leaves the whole state
    of the invocation as it is, so the run goes on as if the call had not
    been made: same dispatched actions, same final action. *)
Theorem abort_before_started host thunk arg reason pre post :
  started (run host thunk arg pre) = false →
  abort host thunk arg reason (run host thunk arg pre) = run host thunk arg pre
  ∧ run host thunk arg (pre ++ Abort reason :: post) = run host thunk arg (pre ++ post).
Proof.
  intros Hst. pose proof (abort_unstarted host thunk arg reason _ Hst) as Ha.
  split; [exact Ha|]. rewrite !run_app. simpl. by rewrite Ha.
Qed.

Lemma abort_before_started_witness :
  let thunk := fetchTodos (ReturnsValue (JStr "ok")) conditionFalse in
  abort browser thunk JUndefined (Some "x") (run browser thunk JUndefined [Invoke])
  = run browser thunk JUndefined [Invoke]
  ∧ run browser thunk JUndefined ([Invoke] ++ Abort (Some "x") :: [ComputationSettles])
    = run browser thunk JUndefined ([Invoke] ++ [ComputationSettles]).
Proof.
  apply (abort_before_started browser
           (fetchTodos (ReturnsValue (JStr "ok")) conditionFalse) JUndefined
           (Some "x") [Invoke] [ComputationSettles]).
  reflexivity.
Defined.

(** ** How a call ends *)

Lemma ending_Returns s a : ending s = Some (Returns a) → promise s = Some a.
Proof. unfold ending. repeat case_match; congruence. Qed.

Lemma ending_Throws s x :
  ending s = Some (Throws x) → promise s = None ∧ thrown s = Some x.
Proof. unfold ending. repeat case_match; try congruence. by intros [= ->]. Qed.

Section endings.
Context (host : Host) (thunk : AsyncThunk) (arg : JsVal).

Local Abbreviation rid := (theRequestId host thunk).
Local Abbreviation run := (run host thunk arg).
Local Abbreviation payloadResult :=
  (payloadCreator thunk arg (theRequestId host thunk) (getState host) (extra host)).

(** The [catch] clause ends the call with what [rejected] gives. *)
Lemma catch_ending e s :
  promise s = None →
  phase (catch host thunk arg e s) = Settled
  ∧ ending (catch host thunk arg e s) = Some (rejected thunk e rid arg)
  ∧ sink (catch host thunk arg e s)
    = (sink s ++ dispatchedBy thunk (Some (rejected thunk e rid arg)))%list.
Proof.
  intros Hpr. unfold catch, ending.
  destruct (rejected thunk e rid arg) as [a|x]; simpl; rewrite ?Hpr.
  - unfold dispatched. split_and!; [done..|]. case_match; [|done]. by rewrite app_nil_r.
  - by rewrite app_nil_r.
Qed.

(** So does the promise of the payload creator when it wins the race. *)
Lemma settled_ending c s :
  promise s = None → c ≠ NeverSettles →
  phase (settled host thunk arg c s) = Settled
  ∧ ending (settled host thunk arg c s) = completion host thunk arg (ReturnsPromise c)
  ∧ sink (settled host thunk arg c s)
    = (sink s ++ dispatchedBy thunk (completion host thunk arg (ReturnsPromise c)))%list.
Proof.
  intros Hpr Hc. destruct c as [v|e|]; [| |done]; simpl.
  - destruct (instanceofRejectWithValue v).
    + destruct (rejected thunk v rid arg) as [a|x]; [|by apply catch_ending].
      unfold ending, dispatched. simpl. split_and!; [done..|].
      case_match; [|done]. by rewrite app_nil_r.
    + unfold ending, dispatched. simpl. split_and!; [done..|].
      case_match; [|done]. by rewrite app_nil_r.
  - by apply catch_ending.
Qed.

Lemma completion_awaited r c :
  awaited r = Some c → completion host thunk arg r = completion host thunk arg (ReturnsPromise c).
Proof. destruct r as [e|v|p]; simpl; [done| |]; by intros [= <-]. Qed.

Lemma completion_Some c :
  c ≠ NeverSettles → ∃ o, completion host thunk arg (ReturnsPromise c) = Some o.
Proof. destruct c; [by eexists..|done]. Qed.

Lemma body_by_gateError s :
  body host thunk arg s
  = match gateError host thunk arg with
    | Some e => catch host thunk arg e s
    | None => start host thunk arg s
    end.
Proof.
  unfold body, gateError.
  destruct (gate host thunk arg) as [[[| |[]| | | |]|]|]; done.
Qed.

Lemma gateError_blocks :
  gateBlocks host thunk arg = bool_decide (is_Some (gateError host thunk arg)).
Proof.
  unfold gateBlocks, gateError.
  destruct (gate host thunk arg) as [[[| |[]| | | |]|]|]; done.
Qed.

(** Membership in a trace that grew by one event. *)
Ltac in_trace :=
  apply elem_of_app; first [ by left | right; by apply list_elem_of_singleton ].

(** The three ways a call ends, for the trace that led there. *)
Lemma cause_invariant events :
  let s := run events in
  match phase s with
  | Created => Invoke ∉ events
  | Running =>
      Invoke ∈ events ∧ gateError host thunk arg = None
      ∧ computation s = awaited payloadResult
  | Settled =>
      ∃ o, ending s = Some o ∧ Invoke ∈ events
        ∧ ((∃ e, gateError host thunk arg = Some e ∧ o = rejected thunk e rid arg)
           ∨ (gateError host thunk arg = None
              ∧ completion host thunk arg payloadResult = Some o
              ∧ ((∃ e, payloadResult = ThrowsSync e) ∨ ComputationSettles ∈ events))
           ∨ (gateError host thunk arg = None
              ∧ hasAbortController host = true
              ∧ ∃ reason, Abort reason ∈ events
                  ∧ o = rejected thunk (abortError reason) rid arg))
  end.
Proof.
  induction events as [|ev events IH] using rev_ind; [apply not_elem_of_nil|].
  cbv zeta in *. rewrite run_app.
  change (foldl ?f ?s0 [?e]) with (f s0 e).
  pose proof (shape_run host thunk arg events) as Hshape.
  set (s := run events) in *.
  destruct (phase s) eqn:Hp.
  - (* not entered yet *)
    destruct Hshape as [_ Hst Hsig _ _ Hpr Hth Hsk | ? ? Hp' | ? ? Hp' | ? ? Hp'
                       | ? ? Hp' | ? ? Hp']; try congruence.
    destruct ev as [|reason|]; simpl; rewrite ?Hp.
    + rewrite body_by_gateError. destruct (gateError host thunk arg) as [e|] eqn:Hge.
      * destruct (catch_ending e s Hpr) as (-> & He & _).
        eexists. split; [done|]. split; [in_trace|]. left. eauto.
      * unfold start.
        destruct payloadResult as [e|w|p] eqn:Hr; simpl.
        -- match goal with |- context [catch _ _ _ e ?s1] =>
             destruct (catch_ending e s1 Hpr) as (-> & He & _) end.
           eexists. split; [done|]. split; [in_trace|]. right. left. eauto.
        -- split; [in_trace|done].
        -- split; [in_trace|done].
    + rewrite abort_unstarted, Hp by done.
      intros [H|H%list_elem_of_singleton]%elem_of_app; [done|discriminate].
    + intros [H|H%list_elem_of_singleton]%elem_of_app; [done|discriminate].
  - (* the body waits *)
    destruct IH as (Hin & Hge & Hc).
    destruct Hshape as [Hp' | ? ? Hp' | ? ? Hp' | c _ _ Hst Hsig _ Hpr Hth _
                       | ? ? Hp' | ? ? Hp']; try congruence.
    destruct ev as [|reason|]; simpl; rewrite ?Hp.
    + split; [in_trace|done].
    + unfold abort, abortController_abort. rewrite Hst. simpl.
      destruct (hasAbortController host) eqn:Hhost.
      * rewrite Hsig, Hp.
        match goal with |- context [catch _ _ _ ?e ?s1] =>
          destruct (catch_ending e s1 Hpr) as (-> & He & _) end.
        eexists. split; [done|]. split; [in_trace|].
        right. right. split_and!; [done..|]. exists reason. split; [in_trace|done].
      * simpl. rewrite Hp. split; [in_trace|done].
    + rewrite Hc. destruct (awaited payloadResult) as [c'|] eqn:Haw;
        [|rewrite Hp; split; [in_trace|]; split; [done|congruence]].
      assert (Hcases : c' = NeverSettles ∨ c' ≠ NeverSettles) by (destruct c'; auto).
      destruct Hcases as [->|Hn].
      * simpl. rewrite Hp. split; [in_trace|]. split; [done|congruence].
      * destruct (settled_ending c' s Hpr Hn) as (-> & He & _).
        destruct (completion_Some c' Hn) as [o Ho]. rewrite Ho in He.
        exists o. split; [done|]. split; [in_trace|]. right. left.
        split_and!; [done| |right; in_trace].
        by rewrite (completion_awaited _ _ Haw).
  - (* ended *)
    destruct IH as (o & Ho & Hin & Hcause).
    destruct (settled_step host thunk arg s ev Hp) as (-> & Hpr & _ & _ & Hth).
    exists o. split; [unfold ending; by rewrite Hpr, Hth|]. split; [in_trace|].
    destruct Hcause as [?|[(? & ? & [?|?])|(? & ? & reason & ? & ?)]].
    + by left.
    + right. left. eauto.
    + right. left. split_and!; [done..|]. right. in_trace.
    + right. right. split_and!; [done..|]. exists reason. split; [in_trace|done].
Qed.

Lemma settled_step_ending s e :
  phase s = Settled →
  phase (step host thunk arg s e) = Settled
  ∧ ending (step host thunk arg s e) = ending s
  ∧ sink (step host thunk arg s e) = sink s.
Proof.
  intros Hp. destruct (settled_step host thunk arg s e Hp) as (? & Hpr & ? & _ & Hth).
  unfold ending. by rewrite Hpr, Hth.
Qed.

Lemma settled_stable_ending s events :
  phase s = Settled →
  phase (foldl (step host thunk arg) s events) = Settled
  ∧ ending (foldl (step host thunk arg) s events) = ending s
  ∧ sink (foldl (step host thunk arg) s events) = sink s.
Proof.
  intros Hp. destruct (settled_stable host thunk arg s events Hp) as (? & Hpr & ? & Hth & _).
  unfold ending. by rewrite Hpr, Hth.
Qed.

(** When the condition lets the call start and nothing aborts it, the call
    ends the way the payload creator's result leads to. *)
Lemma run_completion o post :
  gateBlocks host thunk arg = false →
  completion host thunk arg payloadResult = Some o →
  let s := run (Invoke :: ComputationSettles :: post) in
  ending s = Some o
  ∧ sink s = pending thunk rid arg :: dispatchedBy thunk (Some o).
Proof.
  intros Hg Hc s.
  assert (H2 : let s2 := run [Invoke; ComputationSettles] in
               phase s2 = Settled ∧ ending s2 = Some o
               ∧ sink s2 = pending thunk rid arg :: dispatchedBy thunk (Some o)).
  { cbv zeta.
    change (run [Invoke; ComputationSettles])
      with (step host thunk arg (body host thunk arg (initial)) ComputationSettles).
    rewrite (body_passes host thunk arg _ Hg). unfold start.
    destruct payloadResult as [e|v|c] eqn:Hr.
    - match goal with |- context [catch _ _ _ e ?s1] =>
        destruct (catch_ending e s1 eq_refl) as (Hp & He & Hs) end.
      simpl in Hc. injection Hc as <-.
      destruct (settled_step_ending _ ComputationSettles Hp) as (K1 & K2 & K3).
      by rewrite K1, K2, K3, He, Hs.
    - change (step host thunk arg ?s1 ComputationSettles)
        with (settled host thunk arg (Resolves v) s1).
      match goal with |- context [settled _ _ _ ?c ?s1] =>
        destruct (settled_ending c s1 eq_refl) as (Hp & He & Hs); [done|] end.
      rewrite He, Hs, Hp. by injection Hc as <-.
    - change (step host thunk arg ?s1 ComputationSettles)
        with (settled host thunk arg c s1).
      assert (Hn : c ≠ NeverSettles) by (by intros ->).
      match goal with |- context [settled _ _ _ ?c ?s1] =>
        destruct (settled_ending c s1 eq_refl Hn) as (Hp & He & Hs) end.
      rewrite He, Hs, Hp. by rewrite Hc. }
  destruct H2 as (Hp & He & Hs). unfold s.
  change (Invoke :: ComputationSettles :: post)
    with ([Invoke; ComputationSettles] ++ post)%list.
  rewrite run_app.
  by destruct (settled_stable_ending _ post Hp) as (_ & -> & ->).
Qed.
End endings.


(** ** Order of the dispatched actions *)



(** ** [abort] *)

Lemma abortError_message reason :
  abortError reason
  = JObj PlainObject
      (<["name" := JStr "AbortError"]> {[ "message" := JStr (abortMessage reason) ]}).
Proof.
  unfold abortError, abortMessage, js_or. destruct reason as [r|]; [simpl|done].
  by destruct (String.eqb r EmptyString).
Qed.

(** *** Without [AbortController] *)

Lemma sameCall_refl s : sameCall s s.
Proof. by repeat split. Qed.

Lemma sameCall_trans s1 s2 s3 : sameCall s1 s2 → sameCall s2 s3 → sameCall s1 s3.
Proof. unfold sameCall. intros ? ?. split_and!; destruct_and!; congruence. Qed.

(** [abort] of the stand-in class changes [abortReason] and nothing else. *)
Lemma fallback_abort host thunk arg reason s :
  hasAbortController host = false →
  sameCall (abort host thunk arg reason s) s.
Proof.
  intros Hhost. unfold abort, abortController_abort. rewrite Hhost.
  destruct (started s) eqn:Hst; [|apply sameCall_refl].
  by repeat split.
Qed.

(** Nothing but [abort] of the platform's controller looks at
    [abortReason]. *)
Lemma fallback_step host thunk arg s s' e :
  hasAbortController host = false →
  sameCall s s' →
  sameCall (step host thunk arg s e) (step host thunk arg s' e).
Proof.
  intros Hhost (H1 & H2 & H3 & H4 & H5 & H6 & H7 & H8). unfold sameCall.
  destruct e as [|reason|]; simpl.
  - rewrite <- H5. destruct (phase s) eqn:Hp; [|split_and!; congruence..].
    unfold body, start, catch, finish, escape.
    repeat case_match; split_and!; simpl; congruence.
  - unfold abort, abortController_abort. rewrite Hhost, <- H1.
    destruct (started s) eqn:Hst; split_and!; simpl; congruence.
  - rewrite <- H5, <- H4.
    destruct (phase s) eqn:Hp; [split_and!; congruence| |split_and!; congruence].
    destruct (computation s) as [c|] eqn:Hc; [|split_and!; congruence].
    unfold settled, catch, finish, escape.
    repeat case_match; split_and!; simpl; congruence.
Qed.

Lemma fallback_foldl host thunk arg events s s' :
  hasAbortController host = false →
  sameCall s s' →
  sameCall (foldl (step host thunk arg) s events) (foldl (step host thunk arg) s' events).
Proof.
  intros Hhost. revert s s'.
  induction events as [|e events IH]; intros s s' Hs; [done|].
  simpl. by apply IH, fallback_step.
Qed.

Lemma fallback_withoutAborts host thunk arg events s s' :
  hasAbortController host = false →
  sameCall s s' →
  sameCall (foldl (step host thunk arg) s events)
           (foldl (step host thunk arg) s' (withoutAborts events)).
Proof.
  intros Hhost. revert s s'.
  induction events as [|e events IH]; intros s s' Hs; [done|].
  unfold withoutAborts. destruct e as [|reason|].
  - rewrite filter_cons_True by done. simpl. apply IH.
    by apply (fallback_step host thunk arg s s' Invoke).
  - rewrite filter_cons_False by (simpl; tauto). simpl. apply IH.
    eapply sameCall_trans; [|exact Hs]. by apply fallback_abort.
  - rewrite filter_cons_True by done. simpl. apply IH.
    by apply (fallback_step host thunk arg s s' ComputationSettles).
Qed.

(** C6, as amended.  A call of [abort(reason)] made while the body waits for
    the payload creator.  Where the platform has [AbortController] it ends
    the call with a rejected action that has [aborted = true],
    [rejectedWithValue = false] and [condition = false], dispatched right
    after the pending action.  Its [error] is the serialized form of
    [{ name: 'AbortError', message: reason || 'Aborted' }], so under the
    default serializer its message is the reason, or ['Aborted'] when the
    reason is absent or empty.  Whatever follows (a second [abort], the
    payload creator settling) changes neither the final action nor what was
    dispatched.  Where the platform has no [AbortController] the call of
    [abort] changes nothing: the run goes on to the phase, the dispatched
    actions and the outcome it has without that call. *)
Theorem abort_while_running host thunk arg pre reason post :
  phase (run host thunk arg pre) = Running →
  let rid := theRequestId host thunk in
  let s := run host thunk arg (pre ++ Abort reason :: post) in
  (hasAbortController host = true →
   ∃ a, rejected thunk (abortError reason) rid arg = Returns a
     ∧ promise s = Some a
     ∧ sink s = [pending thunk rid arg; a]
     ∧ flag a aborted = true ∧ flag a rejectedWithValue = false
     ∧ flag a condition = false
     ∧ error a = Some (serialized thunk (abortError reason))
     ∧ ((options thunk ≫= AsyncThunkOptions.serializeError) = None →
        error a = Some (JObj PlainObject
                          (<["name" := JStr "AbortError"]>
                             {[ "message" := JStr (abortMessage reason) ]}))))
  ∧ (hasAbortController host = false →
     let s' := run host thunk arg (pre ++ post) in
     phase s = phase s' ∧ sink s = sink s' ∧ promise s = promise s'
     ∧ thrown s = thrown s' ∧ started s = started s').
Proof.
  intros Hrun rid s. split.
  - intros Hhost.
    destruct (rejected_abortError thunk reason rid arg) as (Hrej & Ha & Hc & Hr).
    set (a := rejectedData thunk (abortError reason) rid arg) in *.
    assert (Hstep : step host thunk arg (run host thunk arg pre) (Abort reason)
                    = finish thunk a
                        {| started := true; abortReason := reason; signalAborted := true;
                           abortedPromise := Some (abortError reason);
                           computation := computation (run host thunk arg pre);
                           phase := Running;
                           sink := [pending thunk rid arg];
                           promise := None; thrown := None |}).
    { destruct (shape_run host thunk arg pre)
        as [Hp | ? ? Hp | ? ? Hp | c _ Hp Hst Hsig _ Hpr Hth Hsk | ? ? Hp | ? ? Hp];
        try congruence.
      simpl. unfold abort, abortController_abort. rewrite Hst, Hhost. simpl.
      rewrite Hsig, Hp, Hpr, Hsk, Hth. unfold catch. fold rid. by rewrite Hrej. }
    assert (Hs : promise s = Some a ∧ sink s = [pending thunk rid arg; a]).
    { unfold s. rewrite run_app.
      change (foldl ?f ?s0 (?e :: ?l)) with (foldl f (f s0 e) l). rewrite Hstep.
      match goal with |- context [foldl _ ?s0 post] =>
        destruct (settled_stable host thunk arg s0 post eq_refl) as (_ & -> & -> & _) end.
      simpl. by rewrite (skipDispatch_unconditioned thunk a Hc). }
    destruct Hs as [Hpr Hsk]. exists a. split_and!; try done.
    intros Hser. unfold a. simpl. rewrite (serialized_default _ _ Hser), abortError_message.
    by vm_compute.
  - intros Hhost s'. unfold s, s'. rewrite !run_app.
    change (foldl ?f ?s0 (?e :: ?l)) with (foldl f (f s0 e) l).
    pose proof (fallback_foldl host thunk arg post _ _ Hhost
                  (fallback_abort host thunk arg reason (run host thunk arg pre) Hhost))
      as (H1 & _ & _ & _ & H5 & H6 & H7 & H8).
    done.
Qed.

Lemma abort_while_running_witness :
  let thunk := fetchTodos (ReturnsPromise (Resolves (JStr "ok"))) None in
  let s := run browser thunk JUndefined
             ([Invoke] ++ Abort (Some "x") :: [Abort (Some "y"); ComputationSettles]) in
  ∃ a, rejected thunk (abortError (Some "x")) (theRequestId browser thunk) JUndefined
       = Returns a
     ∧ promise s = Some a
     ∧ sink s = [pending thunk (theRequestId browser thunk) JUndefined; a].
Proof.
  destruct (abort_while_running browser
              (fetchTodos (ReturnsPromise (Resolves (JStr "ok"))) None) JUndefined
              [Invoke] (Some "x") [Abort (Some "y"); ComputationSettles] eq_refl)
    as [H _].
  destruct (H eq_refl) as (a & H1 & H2 & H3 & _).
  exists a. exact (conj H1 (conj H2 H3)).
Defined.

(** C6: on a platform without [AbortController] the same call of [abort]
    does nothing; the payload creator completes and the final action is its
    fulfilled action, which has no [aborted] flag. *)
Lemma abort_without_AbortController :
  let thunk := fetchTodos (ReturnsPromise (Resolves (JStr "ok"))) None in
  let s1 := run legacyPlatform thunk JUndefined [Invoke] in
  let s2 := run legacyPlatform thunk JUndefined [Invoke; Abort (Some "x")] in
  let s3 := run legacyPlatform thunk JUndefined [Invoke; Abort (Some "x"); ComputationSettles] in
  phase s1 = Running ∧ sink s1 = [pending thunk "r1" JUndefined]
  ∧ phase s2 = Running ∧ promise s2 = None
  ∧ promise s3 = Some (fulfilled thunk (JStr "ok") "r1" JUndefined)
  ∧ ((λ a, flag a aborted) <$> promise s3) = Some false
  ∧ ¬ (∃ a, promise s3 = Some a ∧ flag a aborted = true).
Proof.
  split_and!; try reflexivity.
  intros (a & [= <-] & Ha). discriminate.
Qed.

(** ** The payload creator fails *)

(** What [rejected] read of the error to build the action it returned. *)
Lemma rejected_reads thunk e rid arg0 a :
  rejected thunk e rid arg0 = Returns a →
  ∃ ab co pl se n,
    a = createAction (typePrefix thunk +:+ "/rejected")
          {| prepared_payload := pl;
             prepared_error := Some se;
             prepared_meta :=
               Some {| arg := arg0; requestId := rid;
                       rejectedWithValue := Some (instanceofRejectWithValue e);
                       requestStatus := StatusRejected;
                       aborted := Some ab; condition := Some co |} |}
    ∧ (if truthy e
       then ∃ x y, read 0 e "name" = Returns x ∧ read 1 e "name" = Returns y
                   ∧ ab = is_str "AbortError" x ∧ co = is_str "ConditionError" y
       else ab = false ∧ co = false)
    ∧ (if instanceofRejectWithValue e
       then read 2 e "payload" = Returns pl
       else pl = JUndefined)
    ∧ serializer thunk (js_or e (JStr "Rejected")) (readsBeforeSerializer e)
      = Returns (se, n).
Proof.
  unfold rejected, runReads.
  destruct (rejectedPrepare thunk e rid arg0 0) as [[p n]|x] eqn:Hp; intros [= <-].
  unfold rejectedPrepare, named, readProperty in Hp.
  unfold mbind, Reads_bind, mret, Reads_ret in Hp.
  unfold readsBeforeSerializer.
  assert (Hobj : instanceofRejectWithValue e = true → truthy e = true)
    by (by destruct e).
  remember (js_or e (JStr "Rejected")) as e' eqn:He'.
  destruct (truthy e) eqn:Htr, (instanceofRejectWithValue e) eqn:Hinst;
    try (by specialize (Hobj eq_refl));
    repeat case_match; simplify_eq; simpl;
    do 5 eexists; (split; [reflexivity|]); eauto 10.
Qed.

(** The promise of a call is not both resolved and rejected. *)
Lemma promise_not_thrown host thunk arg events a :
  promise (run host thunk arg events) = Some a →
  thrown (run host thunk arg events) = None.
Proof.
  destruct (shape_run host thunk arg events)
    as [_ _ _ _ _ Hpr Hth _ | b _ _ _ _ Hpr Hth _ | x _ _ _ Hpr _ _
       | c _ _ _ _ _ Hpr Hth _ | b _ _ _ _ Hpr Hth _ | x _ _ _ Hpr _ _];
    rewrite Hpr; by intros [= <-].
Qed.






(** C3, as amended.  When the payload creator ends with
    [rejectWithValue(v)] (returned, resolved, thrown or rejected), the final
    action is the rejected action built from that [RejectWithValue] object
    itself, not from [null]: [rejectedWithValue = true], [aborted] and
    [condition] are [false], the payload is [v], and the [error] property is
    the serialized form of the object, which under the default serializer is
    [{ name: 'RejectWithValue', message: 'Rejected' }], the two fixed fields
    of the class.  [unwrap()] throws [v]. *)
Theorem rejectWithValue_action host thunk arg v post :
  gateBlocks host thunk arg = false →
  (let r := payloadCreator thunk arg (theRequestId host thunk) (getState host) (extra host) in
   let m := newRejectWithValue v in
   r = ReturnsValue m ∨ r = ReturnsPromise (Resolves m)
   ∨ r = ThrowsSync m ∨ r = ReturnsPromise (RejectsWith m)) →
  let rid := theRequestId host thunk in
  let s := run host thunk arg (Invoke :: ComputationSettles :: post) in
  ∃ a, rejected thunk (newRejectWithValue v) rid arg = Returns a
    ∧ promise s = Some a
    ∧ flag a rejectedWithValue = true ∧ flag a aborted = false
    ∧ flag a condition = false
    ∧ payload a = v
    ∧ error a = Some (serialized thunk (newRejectWithValue v))
    ∧ ((options thunk ≫= AsyncThunkOptions.serializeError) = None →
       error a = Some (JObj PlainObject
                         (<["name" := JStr "RejectWithValue"]>
                            {[ "message" := JStr "Rejected" ]})))
    ∧ unwrap s = Some (Throws v)
    ∧ rejected thunk JNull rid arg ≠ Returns a.
Proof.
  intros Hg Hr rid s.
  pose proof (rejected_data thunk (newRejectWithValue v) rid arg eq_refl) as Ha.
  set (a := rejectedData thunk (newRejectWithValue v) rid arg) in *.
  assert (Hc : completion host thunk arg
                 (payloadCreator thunk arg (theRequestId host thunk) (getState host)
                    (extra host)) = Some (Returns a)).
  { destruct Hr as [-> | [-> | [-> | ->]]]; simpl; fold rid; by rewrite Ha. }
  destruct (run_completion host thunk arg _ post Hg Hc) as [Hend _]. fold s in Hend.
  pose proof (ending_Returns _ _ Hend) as Hpr.
  assert (Hp : payload a = v) by apply newRejectWithValue_payload.
  exists a. split_and!; try done.
  - intros Hser. unfold a. simpl. rewrite (serialized_default _ _ Hser). by vm_compute.
  - unfold unwrap. rewrite Hpr. unfold unwrapResult. by rewrite Hp.
  - rewrite (rejected_data thunk JNull rid arg eq_refl). by intros [= H].
Qed.

Lemma rejectWithValue_action_witness :
  let thunk := fetchTodos (ReturnsPromise (Resolves (newRejectWithValue seven))) None in
  unwrap (run browser thunk JUndefined [Invoke; ComputationSettles]) = Some (Throws seven).
Proof.
  destruct (rejectWithValue_action browser
              (fetchTodos (ReturnsPromise (Resolves (newRejectWithValue seven))) None)
              JUndefined seven [] eq_refl (or_intror (or_introl eq_refl)))
    as (a & _ & _ & _ & _ & _ & _ & _ & _ & H & _).
  exact H.
Defined.

(** C3: for a payload creator that resolves to [rejectWithValue(7)], the
    rejected action is built from the [RejectWithValue] object, not from
    [null], and its serialized error is that of the object, not the one of
    the fallback literal ['Rejected']. *)
Lemma rejectWithValue_error_not_fallback :
  let thunk := fetchTodos (ReturnsPromise (Resolves (newRejectWithValue seven))) None in
  let s := run browser thunk JUndefined [Invoke; ComputationSettles] in
  Returns <$> promise s = Some (rejected thunk (newRejectWithValue seven) "r1" JUndefined)
  ∧ Returns <$> promise s ≠ Some (rejected thunk JNull "r1" JUndefined)
  ∧ (promise s ≫= error)
    = Some (JObj PlainObject
              (<["name" := JStr "RejectWithValue"]> {[ "message" := JStr "Rejected" ]}))
  ∧ serialized thunk (js_or JNull (JStr "Rejected"))
    = JObj PlainObject {[ "message" := JStr "Rejected" ]}
  ∧ miniSerializeError (js_or JNull (JStr "Rejected"))
    = Returns (JObj PlainObject {[ "message" := JStr "Rejected" ]})
  ∧ (promise s ≫= error) ≠ Some (serialized thunk (js_or JNull (JStr "Rejected"))).
Proof.
  split; [reflexivity|].
  split; [|split; [by vm_compute|split; [by vm_compute|split; [by vm_compute|]]]].
  - intros H. vm_compute in H. discriminate.
  - intros H. apply (f_equal (λ o, (λ x, get x "name") <$> o)) in H.
    vm_compute in H. discriminate.
Qed.

(** ** [unwrapResult] on final actions *)

(** What [unwrapResult] does with the actions a call can end with: it
    returns the payload of a fulfilled action, throws the payload of a
    rejected action built from a [RejectWithValue], and on any other
    rejected action throws the serialized error when that is truthy. *)
Lemma unwrapResult_cases thunk rid arg :
  (∀ v, unwrapResult (fulfilled thunk v rid arg) = Returns v)
  ∧ (∀ e a, rejected thunk e rid arg = Returns a →
       instanceofRejectWithValue e = true →
       unwrapResult a = Throws (payload a))
  ∧ (∀ e a, rejected thunk e rid arg = Returns a →
       instanceofRejectWithValue e = false →
       ∃ x, error a = Some x
            ∧ unwrapResult a = if truthy x then Throws x else Returns JUndefined).
Proof.
  split_and!.
  - done.
  - intros e a (ab & co & pl & se & -> & _)%rejected_inv He.
    unfold unwrapResult. simpl. by rewrite He.
  - intros e a (ab & co & pl & se & -> & Hpl)%rejected_inv He.
    exists se. split; [done|]. unfold unwrapResult. simpl. by rewrite He, (Hpl He).
Qed.

(** C8.  With [serializeError: () => null] the rejected action of a payload
    creator that throws has a falsy [error]; [unwrapResult] falls through
    [if (action.error)] and returns the payload, [undefined], instead of
    throwing. *)
Lemma unwrapResult_returns_on_falsy_error :
  let thunk := fetchTodos (ThrowsSync (JStr "boom")) serializeToNull in
  let s := run browser thunk JUndefined [Invoke] in
  Returns <$> promise s = Some (rejected thunk (JStr "boom") "r1" JUndefined)
  ∧ (matches "todos/fetch/rejected" <$> promise s) = Some true
  ∧ ((λ a, flag a rejectedWithValue) <$> promise s) = Some false
  ∧ (promise s ≫= error) = Some JNull
  ∧ (unwrapResult <$> promise s) = Some (Returns JUndefined)
  ∧ unwrap s = Some (Returns JUndefined)
  ∧ ¬ (∃ x, unwrap s = Some (Throws x)).
Proof.
  split_and!; try reflexivity. intros [x H]. discriminate.
Qed.

(** ** The default serializer *)

(** [String] on the values of the samples. *)
Example String_examples :
  String_ JUndefined = "undefined" ∧ String_ JNull = "null"
  ∧ String_ (JBool true) = "true" ∧ String_ (JBool false) = "false"
  ∧ String_ fortyTwo = "42" ∧ String_ (JNum "1e+21" true) = "1e+21"
  ∧ String_ (JNum "NaN" false) = "NaN" ∧ String_ (JStr "boom") = "boom"
  ∧ String_ httpError = "[object Object]"
  ∧ String_ throwingName = "[object Object]".
Proof. by split_and!. Qed.




(** ** The payload of a rejected action *)


(** * Further properties *)

(** ** The default serializer, again *)





(** ** Rejected actions, again *)

(** X2.  A rejected action built from a falsy error ([null], [undefined],
    [0], the empty string, [false]) is serialized from the literal
    ['Rejected']: under the default serializer its [error] is
    [{ message: 'Rejected' }]; its payload is [undefined] and none of its
    three flags is set. *)
Theorem rejected_falsy_error thunk e rid arg :
  truthy e = false →
  ∃ a, rejected thunk e rid arg = Returns a
    ∧ error a = Some (serialized thunk (JStr "Rejected"))
    ∧ ((options thunk ≫= AsyncThunkOptions.serializeError) = None →
       error a = Some (JObj PlainObject {[ "message" := JStr "Rejected" ]}))
    ∧ payload a = JUndefined
    ∧ flag a rejectedWithValue = false ∧ flag a aborted = false
    ∧ flag a condition = false.
Proof.
  intros He.
  assert (Hd : accessors e = false) by (by destruct e).
  assert (Hi : instanceofRejectWithValue e = false) by (by destruct e).
  exists (rejectedData thunk e rid arg). split; [by apply rejected_data|].
  split_and!.
  - simpl. unfold js_or. by rewrite He.
  - intros Hser. simpl. unfold js_or. rewrite He, (serialized_default _ _ Hser).
    by vm_compute.
  - simpl. by rewrite Hi.
  - done.
  - by rewrite rejectedData_aborted, He.
  - by rewrite rejectedData_condition, He.
Qed.

Lemma rejected_falsy_error_witness :
  let thunk := fetchTodos (ThrowsSync JNull) None in
  ∃ a, rejected thunk JNull "r1" JUndefined = Returns a
    ∧ error a = Some (JObj PlainObject {[ "message" := JStr "Rejected" ]}).
Proof.
  destruct (rejected_falsy_error (fetchTodos (ThrowsSync JNull) None) JNull "r1" JUndefined
              eq_refl) as (a & H1 & _ & H2 & _).
  exists a. exact (conj H1 (H2 eq_refl)).
Defined.

(** ** The three action types *)

Lemma list_ascii_of_string_app s1 s2 :
  String.list_ascii_of_string (s1 +:+ s2)
  = (String.list_ascii_of_string s1 ++ String.list_ascii_of_string s2)%list.
Proof. induction s1 as [|c s1 IH]; [done|]. simpl. by rewrite <- IH. Qed.

Lemma list_ascii_of_string_inj s1 s2 :
  String.list_ascii_of_string s1 = String.list_ascii_of_string s2 → s1 = s2.
Proof.
  intros H. rewrite <- (String.string_of_list_ascii_of_string s1), H.
  apply String.string_of_list_ascii_of_string.
Qed.

(** Two strings that end with suffixes of three characters or more agree on
    the last three characters of the suffixes. *)
Lemma append_tail p1 p2 s1 s2 :
  p1 +:+ s1 = p2 +:+ s2 →
  (3 ≤ length (String.list_ascii_of_string s1))%nat →
  (3 ≤ length (String.list_ascii_of_string s2))%nat →
  take 3 (reverse (String.list_ascii_of_string s1)) = take 3 (reverse (String.list_ascii_of_string s2)).
Proof.
  intros H H1 H2. apply (f_equal String.list_ascii_of_string) in H.
  rewrite !list_ascii_of_string_app in H.
  apply (f_equal (λ l, take 3 (reverse l))) in H.
  rewrite !reverse_app in H.
  rewrite !take_app_le in H by (by rewrite length_reverse). done.
Qed.

Lemma append_same_suffix p1 p2 s : p1 +:+ s = p2 +:+ s → p1 = p2.
Proof.
  intros H. apply (f_equal String.list_ascii_of_string) in H.
  rewrite !list_ascii_of_string_app in H.
  apply app_inj_2 in H as [H _]; [|done]. by apply list_ascii_of_string_inj.
Qed.

(** X4.  The type tags tell the actions of all thunks apart: two actions
    have the same tag exactly when they are of the same kind (pending,
    fulfilled, rejected) and their thunks have the same type prefix. *)
Theorem action_types thunk1 thunk2 rid1 rid2 arg1 arg2 x1 x2 :
  let same := typePrefix thunk1 = typePrefix thunk2 in
  (type (pending thunk1 rid1 arg1) = type (pending thunk2 rid2 arg2) ↔ same)
  ∧ (type (fulfilled thunk1 x1 rid1 arg1) = type (fulfilled thunk2 x2 rid2 arg2) ↔ same)
  ∧ type (pending thunk1 rid1 arg1) ≠ type (fulfilled thunk2 x2 rid2 arg2)
  ∧ (∀ a2, rejected thunk2 x2 rid2 arg2 = Returns a2 →
       (∀ a1, rejected thunk1 x1 rid1 arg1 = Returns a1 → type a1 = type a2 ↔ same)
       ∧ type (pending thunk1 rid1 arg1) ≠ type a2
       ∧ type (fulfilled thunk1 x1 rid1 arg1) ≠ type a2).
Proof.
  intros same. unfold same.
  assert (Hdiff : ∀ p1 p2 s1 s2,
            (3 ≤ length (String.list_ascii_of_string s1))%nat →
            (3 ≤ length (String.list_ascii_of_string s2))%nat →
            take 3 (reverse (String.list_ascii_of_string s1))
            ≠ take 3 (reverse (String.list_ascii_of_string s2)) →
            p1 +:+ s1 ≠ p2 +:+ s2).
  { intros p1 p2 s1 s2 H1 H2 Hne H. by apply Hne, (append_tail p1 p2). }
  split_and!.
  - simpl. split; [apply append_same_suffix|by intros ->].
  - simpl. split; [apply append_same_suffix|by intros ->].
  - simpl. apply Hdiff; simpl; [lia..|]. by vm_compute.
  - intros a2 H2. rewrite (rejected_type _ _ _ _ _ H2). split_and!.
    + intros a1 H1. rewrite (rejected_type _ _ _ _ _ H1).
      split; [apply append_same_suffix|by intros ->].
    + simpl. apply Hdiff; simpl; [lia..|]. by vm_compute.
    + simpl. apply Hdiff; simpl; [lia..|]. by vm_compute.
Qed.

(** ** What a call dispatches *)

(** X5.  Every action a call dispatches, and the action its promise resolves
    to, carries in [meta] the request id of the call (the result of
    [options.idGenerator] when given, of [nanoid] otherwise) and the argument
    of the call. *)
Theorem actions_correlated host thunk arg events :
  let s := run host thunk arg events in
  Forall (correlated host thunk arg) (sink s)
  ∧ from_option (correlated host thunk arg) True (promise s).
Proof.
  intros s. unfold s.
  assert (Hp : correlated host thunk arg (pending thunk (theRequestId host thunk) arg))
    by (by eexists).
  assert (Ht : ∀ a, terminal host thunk arg a → correlated host thunk arg a).
  { intros a [v _|e b (ab & co & pl & se & -> & _)%rejected_inv]; by eexists. }
  destruct (shape_run host thunk arg events)
    as [_ _ _ _ _ Hpr _ Hsk | a _ _ _ Ha Hpr _ Hsk | x _ _ _ Hpr _ Hsk
       | c _ _ _ _ _ Hpr _ Hsk | a _ _ _ Ha Hpr _ Hsk | x _ _ _ Hpr _ Hsk];
    rewrite Hpr, Hsk; unfold dispatched; repeat case_match; simpl;
    repeat constructor; auto.
Qed.

(** X6.  The action a call ends with is dispatched unless [skipDispatch]
    holds of it.  So it is always dispatched when it is a fulfilled action,
    when its [meta.condition] is not set, when the thunk was created without
    options, and when [dispatchConditionRejection] is [true]. *)
Theorem final_action_dispatched host thunk arg events a :
  promise (run host thunk arg events) = Some a →
  (a ∈ sink (run host thunk arg events) ↔ skipDispatch thunk a = false)
  ∧ (flag a condition = false → a ∈ sink (run host thunk arg events))
  ∧ (options thunk = None → a ∈ sink (run host thunk arg events))
  ∧ ((options thunk ≫= AsyncThunkOptions.dispatchConditionRejection) = Some true →
     a ∈ sink (run host thunk arg events)).
Proof.
  intros Hpr.
  assert (Hiff : a ∈ sink (run host thunk arg events) ↔ skipDispatch thunk a = false).
  { destruct (shape_run host thunk arg events)
      as [_ _ _ _ _ Hpr' _ _ | b _ _ _ Hb Hpr' _ Hsk | x _ _ _ Hpr' _ _
         | c _ _ _ _ _ Hpr' _ _ | b _ _ _ Hb Hpr' _ Hsk | x _ _ _ Hpr' _ _];
      rewrite Hpr' in Hpr; simplify_eq; rewrite Hsk; unfold dispatched.
    - destruct (skipDispatch thunk a).
      + split; [by intros ?%not_elem_of_nil|done].
      + split; [done|]. intros _. apply list_elem_of_here.
    - destruct (skipDispatch thunk a).
      + split; [|done]. intros Hin%list_elem_of_singleton. exfalso.
        by apply (pending_not_terminal host thunk arg a).
      + split; [done|]. intros _. apply list_elem_of_further, list_elem_of_here. }
  split_and!; [done|..]; rewrite Hiff.
  - apply skipDispatch_unconditioned.
  - unfold skipDispatch. by intros ->.
  - unfold skipDispatch. destruct (options thunk) as [o|]; [simpl|done]. by intros ->.
Qed.

Lemma final_action_dispatched_witness :
  let thunk := fetchTodos (ReturnsValue (JStr "ok")) None in
  fulfilled thunk (JStr "ok") "r1" JUndefined
  ∈ sink (run browser thunk JUndefined [Invoke; ComputationSettles]).
Proof.
  exact (proj1 (proj2 (final_action_dispatched browser
                         (fetchTodos (ReturnsValue (JStr "ok")) None)
                         JUndefined [Invoke; ComputationSettles] _ eq_refl)) eq_refl).
Defined.

(** ** The condition, again *)

(** X7.  Only a condition that returns exactly [false] or throws keeps a
    call from starting.  With no condition, or with one that returns any
    other value (also a falsy one: [undefined], [null], [0], the empty
    string), the call is marked started and the pending action is the first
    action dispatched. *)
Theorem condition_not_false_starts host thunk arg events :
  (gate host thunk arg = None
   ∨ ∃ v, gate host thunk arg = Some (Returns v) ∧ v ≠ JBool false) →
  Invoke ∈ events →
  let s := run host thunk arg events in
  started s = true
  ∧ ∃ rest, sink s = pending thunk (theRequestId host thunk) arg :: rest.
Proof.
  intros Hgate Hin s.
  assert (Hg : gateBlocks host thunk arg = false).
  { unfold gateBlocks. destruct Hgate as [-> | (v & -> & Hv)]; [done|].
    destruct v as [| |[]| | | |]; done. }
  pose proof (cause_invariant host thunk arg events) as Hc. cbv zeta in Hc.
  unfold s. destruct (shape_run host thunk arg events)
    as [Hp _ _ _ _ _ _ _ | a Hg' _ _ _ _ _ _ | x Hg' _ _ _ _ _
       | c _ _ Hst _ _ _ _ Hsk | a _ _ Hst _ _ _ Hsk | x _ _ Hst _ _ Hsk];
    [|congruence..|eauto|eauto|eauto].
  by rewrite Hp in Hc.
Qed.

Lemma condition_not_false_starts_witness :
  let thunk :=
    fetchTodos (ReturnsPromise NeverSettles)
      (Some {| AsyncThunkOptions.condition := Some (λ _ _ _, Returns zero);
               AsyncThunkOptions.dispatchConditionRejection := None;
               AsyncThunkOptions.serializeError := None;
               AsyncThunkOptions.idGenerator := None |}) in
  let s := run browser thunk JUndefined [Invoke] in
  started s = true
  ∧ ∃ rest, sink s = pending thunk (theRequestId browser thunk) JUndefined :: rest.
Proof.
  apply condition_not_false_starts.
  - right. exists zero. split; [reflexivity|discriminate].
  - apply list_elem_of_here.
Defined.

(** ** The payload creator completes, again *)

(** X8.  A payload creator that returns or resolves to [v], where [v] is not
    a [RejectWithValue], and that nothing aborts first: the pending action
    and then the fulfilled action with payload [v] are dispatched, the
    promise resolves to that action, and [unwrap()] gives [v] back. *)
Theorem fulfilled_round_trip host thunk arg v post :
  gateBlocks host thunk arg = false →
  instanceofRejectWithValue v = false →
  (let r := payloadCreator thunk arg (theRequestId host thunk) (getState host) (extra host) in
   r = ReturnsValue v ∨ r = ReturnsPromise (Resolves v)) →
  let s := run host thunk arg (Invoke :: ComputationSettles :: post) in
  let a := fulfilled thunk v (theRequestId host thunk) arg in
  promise s = Some a
  ∧ sink s = [pending thunk (theRequestId host thunk) arg; a]
  ∧ payload a = v
  ∧ unwrap s = Some (Returns v).
Proof.
  intros Hg Hv Hr s a.
  assert (Hc : completion host thunk arg
                 (payloadCreator thunk arg (theRequestId host thunk) (getState host)
                    (extra host)) = Some (Returns a))
    by (destruct Hr as [-> | ->]; simpl; by rewrite Hv).
  destruct (run_completion host thunk arg _ post Hg Hc) as [Hend Hsk].
  fold s in Hend, Hsk. pose proof (ending_Returns _ _ Hend) as Hpr.
  split_and!; [done| |done|].
  - rewrite Hsk. simpl. unfold dispatched.
    by rewrite (skipDispatch_unconditioned thunk a eq_refl).
  - unfold unwrap. by rewrite Hpr.
Qed.

Lemma fulfilled_round_trip_witness :
  let thunk := fetchTodos (ReturnsPromise (Resolves (JStr "ok"))) None in
  unwrap (run browser thunk JUndefined [Invoke; ComputationSettles; Abort None])
  = Some (Returns (JStr "ok")).
Proof.
  apply (fulfilled_round_trip browser
           (fetchTodos (ReturnsPromise (Resolves (JStr "ok"))) None) JUndefined
           (JStr "ok") [Abort None] eq_refl eq_refl).
  right. reflexivity.
Defined.

Lemma is_str_true s v : is_str s v = true ↔ v = JStr s.
Proof.
  destruct v; simpl; try (split; [done|by intros [=]]).
  rewrite String.eqb_eq. split; [by intros ->|by intros [= ->]].
Qed.

(** X9.  [meta.condition] is read from the name of the error, whoever threw
    it: it is set on the action [rejected] returns exactly when the error is
    truthy and the second read of its [name] gives ['ConditionError'].
    When the payload creator itself throws, or rejects with, such an error
    and [dispatchConditionRejection] is not [true], the pending action has
    been dispatched but the rejected action is not: it only reaches the
    caller through the promise. *)
Theorem payload_ConditionError_not_dispatched host thunk arg o e a post :
  options thunk = Some o →
  AsyncThunkOptions.dispatchConditionRejection o ≠ Some true →
  gateBlocks host thunk arg = false →
  (let r := payloadCreator thunk arg (theRequestId host thunk) (getState host) (extra host) in
   r = ThrowsSync e ∨ r = ReturnsPromise (RejectsWith e)) →
  rejected thunk e (theRequestId host thunk) arg = Returns a →
  let s := run host thunk arg (Invoke :: ComputationSettles :: post) in
  promise s = Some a
  ∧ (flag a condition = true
     ↔ truthy e = true ∧ read 1 e "name" = Returns (JStr "ConditionError"))
  ∧ (flag a condition = true →
     sink s = [pending thunk (theRequestId host thunk) arg])
  ∧ (flag a condition = false →
     sink s = [pending thunk (theRequestId host thunk) arg; a]).
Proof.
  intros Ho Hd Hg Hr Ha s.
  assert (Hc : completion host thunk arg
                 (payloadCreator thunk arg (theRequestId host thunk) (getState host)
                    (extra host)) = Some (Returns a))
    by (destruct Hr as [-> | ->]; simpl; by rewrite Ha).
  destruct (run_completion host thunk arg _ post Hg Hc) as [Hend Hsk].
  fold s in Hend, Hsk. pose proof (ending_Returns _ _ Hend) as Hpr.
  split_and!; [done| | |].
  - destruct (rejected_reads thunk e _ arg a Ha)
      as (ab & co & pl & se & n & -> & Hflags & _ & _).
    change (flag _ condition) with co.
    destruct (truthy e).
    + destruct Hflags as (x & y & _ & Hy & _ & ->). rewrite is_str_true, Hy.
      split; [by intros ->|]. by intros [_ [= ->]].
    + destruct Hflags as [_ ->]. split; [done|]. by intros [? _].
  - intros Hcond. rewrite Hsk. simpl. unfold dispatched, skipDispatch.
    rewrite Ho, Hcond, (matches_rejected _ _ _ _ _ Ha).
    by destruct (AsyncThunkOptions.dispatchConditionRejection o) as [[]|].
  - intros Hcond. rewrite Hsk. simpl. unfold dispatched.
    by rewrite (skipDispatch_unconditioned thunk a Hcond).
Qed.

Lemma payload_ConditionError_not_dispatched_witness :
  let thunk := fetchTodos (ThrowsSync conditionError) serializeToNull in
  ∃ a, rejected thunk conditionError (theRequestId browser thunk) JUndefined = Returns a
    ∧ promise (run browser thunk JUndefined [Invoke; ComputationSettles]) = Some a
    ∧ sink (run browser thunk JUndefined [Invoke; ComputationSettles])
      = [pending thunk (theRequestId browser thunk) JUndefined].
Proof.
  eexists. split; [reflexivity|].
  destruct (payload_ConditionError_not_dispatched browser
              (fetchTodos (ThrowsSync conditionError) serializeToNull) JUndefined
              _ conditionError _ [] eq_refl ltac:(discriminate) eq_refl
              (or_introl eq_refl) eq_refl) as (H1 & _ & H2 & _).
  exact (conj H1 (H2 eq_refl)).
Defined.

(** After its end a call that had started still has its abort controller:
    the first call of [abort] rejects [abortedPromise], where the platform
    has [AbortController]. *)
Lemma late_abort host thunk arg post s :
  phase s = Settled → started s = true →
  abortedPromise (foldl (step host thunk arg) s post)
  = if hasAbortController host && negb (signalAborted s)
    then match firstAbort post with
         | Some reason => Some (abortError reason)
         | None => abortedPromise s
         end
    else abortedPromise s.
Proof.
  revert s. induction post as [|e post IH]; intros s Hp Hst.
  - simpl. by destruct (hasAbortController host && negb (signalAborted s)).
  - destruct e as [|reason|]; simpl; rewrite ?Hp; [by apply IH| |by apply IH].
    unfold abort, abortController_abort. rewrite Hst. simpl.
    destruct (hasAbortController host) eqn:Hhost; simpl.
    + destruct (signalAborted s) eqn:Hsig; simpl.
      * rewrite IH by done. simpl. by rewrite ?Hsig.
      * rewrite Hp. by rewrite IH by done.
    + by rewrite IH by done.
Qed.

(** X10.  A payload creator that throws before returning ends the call at
    once, inside the first run of the body, with what [rejected] makes of
    the thrown value: the rejected action when it returns, the exception of
    the read when it throws.  No call of [abort] made afterwards changes
    that outcome or what was dispatched.  The race was never set up, so
    where the platform has [AbortController] the first such call rejects
    [abortedPromise] with nothing attached to it. *)
Theorem sync_throw_settles_at_once host thunk arg e post :
  gateBlocks host thunk arg = false →
  payloadCreator thunk arg (theRequestId host thunk) (getState host) (extra host)
  = ThrowsSync e →
  let s := run host thunk arg (Invoke :: post) in
  let p := pending thunk (theRequestId host thunk) arg in
  phase (run host thunk arg [Invoke]) = Settled
  ∧ match rejected thunk e (theRequestId host thunk) arg with
    | Returns a => promise s = Some a ∧ thrown s = None ∧ sink s = p :: dispatched thunk a
    | Throws x => promise s = None ∧ thrown s = Some x ∧ sink s = [p]
    end
  ∧ unhandledRejection s
    = if hasAbortController host then abortError <$> firstAbort post else None.
Proof.
  intros Hg Hr s p.
  set (s0 := {| started := true; abortReason := None; signalAborted := false;
                abortedPromise := None; computation := None; phase := Created;
                sink := [pending thunk (theRequestId host thunk) arg];
                promise := None; thrown := None |}).
  assert (H1 : run host thunk arg [Invoke] = catch host thunk arg e s0).
  { unfold run. simpl. rewrite (body_passes host thunk arg _ Hg). unfold start.
    by rewrite Hr. }
  destruct (catch_ending host thunk arg e s0 eq_refl) as (Hp & Hend & Hsk).
  rewrite <- H1 in Hp, Hend, Hsk.
  assert (Hfields : started (run host thunk arg [Invoke]) = true
                    ∧ signalAborted (run host thunk arg [Invoke]) = false
                    ∧ abortedPromise (run host thunk arg [Invoke]) = None
                    ∧ computation (run host thunk arg [Invoke]) = None).
  { rewrite H1. unfold catch. by destruct (rejected thunk e (theRequestId host thunk) arg). }
  destruct Hfields as (Hst & Hsig & Hab & Hco).
  assert (Hs : s = foldl (step host thunk arg) (run host thunk arg [Invoke]) post)
    by (unfold s; change (Invoke :: post) with ([Invoke] ++ post)%list; apply run_app).
  destruct (settled_stable_ending host thunk arg _ post Hp) as (_ & Hend' & Hsk').
  destruct (settled_stable host thunk arg _ post Hp) as (_ & _ & _ & _ & Hco').
  rewrite <- Hs in Hend', Hsk', Hco'. rewrite Hend in Hend'. rewrite Hsk in Hsk'.
  split_and!.
  - done.
  - destruct (rejected thunk e (theRequestId host thunk) arg) as [a|x].
    + pose proof (ending_Returns _ _ Hend') as Hpr. split_and!; [done| |done].
      by apply (promise_not_thrown host thunk arg (Invoke :: post) a).
    + by destruct (ending_Throws _ _ Hend') as [? ?].
  - unfold unhandledRejection. rewrite Hco', Hco, Hs.
    rewrite (late_abort host thunk arg post _ Hp Hst), Hsig, Hab, andb_true_r.
    destruct (hasAbortController host); [|done]. by destruct (firstAbort post).
Qed.

Lemma sync_throw_settles_at_once_witness :
  let thunk := fetchTodos (ThrowsSync (JStr "boom")) None in
  let s := run browser thunk JUndefined [Invoke; Abort (Some "x"); Abort None] in
  phase (run browser thunk JUndefined [Invoke]) = Settled
  ∧ (∃ a, rejected thunk (JStr "boom") (theRequestId browser thunk) JUndefined = Returns a
          ∧ promise s = Some a)
  ∧ unhandledRejection s = Some (abortError (Some "x")).
Proof.
  destruct (sync_throw_settles_at_once browser (fetchTodos (ThrowsSync (JStr "boom")) None)
              JUndefined (JStr "boom") [Abort (Some "x"); Abort None] eq_refl eq_refl)
    as (H1 & H2 & H3).
  split; [exact H1|]. split; [|exact H3].
  eexists. split; [reflexivity|]. exact (proj1 H2).
Defined.

(** ** After the end *)

(** X11.  Once a call has ended, nothing that happens to it changes the
    action its promise resolved to, the exception it was rejected with, or
    what it dispatched: not a late [abort], not the payload creator settling
    after an abort. *)
Theorem settled_is_final host thunk arg pre post :
  phase (run host thunk arg pre) = Settled →
  phase (run host thunk arg (pre ++ post)) = Settled
  ∧ promise (run host thunk arg (pre ++ post)) = promise (run host thunk arg pre)
  ∧ sink (run host thunk arg (pre ++ post)) = sink (run host thunk arg pre)
  ∧ thrown (run host thunk arg (pre ++ post)) = thrown (run host thunk arg pre).
Proof.
  intros Hp. rewrite run_app.
  by destruct (settled_stable host thunk arg _ post Hp) as (? & ? & ? & ? & _).
Qed.

Lemma settled_is_final_witness :
  let thunk := fetchTodos (ReturnsPromise (Resolves (JStr "ok"))) None in
  promise (run browser thunk JUndefined
             ([Invoke; Abort (Some "x")] ++ [ComputationSettles; Abort None]))
  = promise (run browser thunk JUndefined [Invoke; Abort (Some "x")]).
Proof.
  apply (settled_is_final browser (fetchTodos (ReturnsPromise (Resolves (JStr "ok"))) None)
           JUndefined [Invoke; Abort (Some "x")] [ComputationSettles; Abort None]).
  reflexivity.
Defined.

(** ** [unwrap], again *)

(** What the default serializer returns is an object, which is truthy. *)
Lemma serializer_default_truthy thunk value n se n' :
  (options thunk ≫= AsyncThunkOptions.serializeError) = None →
  serializer thunk value n = Returns (se, n') → truthy se = true.
Proof.
  intros Hser. unfold serializer. rewrite Hser. unfold miniSerializeErrorReads.
  unfold mbind, Reads_bind, mret, Reads_ret.
  destruct (is_object value); [|by intros [= <- _]].
  destruct (forOf (copyProperty value) ∅ commonProperties n) as [[out m]|x]; [|done].
  by intros [= <- _].
Qed.

(** X12.  Under the default serializer [unwrap()] returns a value exactly
    when the call ended with a fulfilled action, and the value is then the
    payload of that action; every rejected action makes it throw. *)
Theorem unwrap_returns_iff_fulfilled host thunk arg events v :
  (options thunk ≫= AsyncThunkOptions.serializeError) = None →
  unwrap (run host thunk arg events) = Some (Returns v)
  ↔ promise (run host thunk arg events)
    = Some (fulfilled thunk v (theRequestId host thunk) arg).
Proof.
  intros Hser. unfold unwrap. split.
  - destruct (promise (run host thunk arg events)) as [a|] eqn:Hpr;
      [|by destruct (thrown (run host thunk arg events))].
    destruct (promise_terminal host thunk arg events a Hpr) as [w _|e b Hb]; simpl.
    + by intros [= ->].
    + destruct (rejected_reads thunk e _ arg b Hb)
        as (ab & co & pl & se & n & -> & _ & _ & Hse).
      unfold unwrapResult. simpl.
      destruct (instanceofRejectWithValue e); [done|].
      by rewrite (serializer_default_truthy _ _ _ _ _ Hser Hse).
  - by intros ->.
Qed.

Lemma unwrap_returns_iff_fulfilled_witness :
  let thunk := fetchTodos (ReturnsPromise (Resolves (JStr "ok"))) None in
  unwrap (run browser thunk JUndefined [Invoke; ComputationSettles])
  = Some (Returns (JStr "ok"))
  ↔ promise (run browser thunk JUndefined [Invoke; ComputationSettles])
    = Some (fulfilled thunk (JStr "ok") (theRequestId browser thunk) JUndefined).
Proof.
  apply (unwrap_returns_iff_fulfilled browser
           (fetchTodos (ReturnsPromise (Resolves (JStr "ok"))) None) JUndefined
           [Invoke; ComputationSettles] (JStr "ok")).
  reflexivity.
Defined.

(** With [AbortController], a call of [abort] made while the body waits ends
    the call with the rejected action built from the abort error. *)
Lemma abort_running_promise host thunk arg pre reason post :
  hasAbortController host = true →
  phase (run host thunk arg pre) = Running →
  promise (run host thunk arg (pre ++ Abort reason :: post))
  = Some (rejectedData thunk (abortError reason) (theRequestId host thunk) arg).
Proof.
  intros Hhost Hrun. rewrite run_app.
  change (foldl ?f ?s0 (?e :: ?l)) with (foldl f (f s0 e) l).
  assert (Hs : phase (step host thunk arg (run host thunk arg pre) (Abort reason)) = Settled
               ∧ promise (step host thunk arg (run host thunk arg pre) (Abort reason))
                 = Some (rejectedData thunk (abortError reason) (theRequestId host thunk) arg)).
  { destruct (shape_run host thunk arg pre)
      as [Hp | ? ? Hp | ? ? Hp | c _ Hp Hst Hsig _ _ _ _ | ? ? Hp | ? ? Hp];
      try congruence.
    simpl. unfold abort, abortController_abort. rewrite Hst, Hhost. simpl.
    rewrite Hsig, Hp. unfold catch.
    by rewrite (rejected_data thunk (abortError reason) _ arg eq_refl). }
  destruct Hs as [Hp Hpr].
  destruct (settled_stable host thunk arg _ post Hp) as (_ & -> & _). done.
Qed.

(** X13.  With [AbortController] and the default serializer, [unwrap()] of a
    call aborted while its body waits throws
    [{ name: 'AbortError', message: reason || 'Aborted' }], whatever the
    payload creator does afterwards. *)
Theorem unwrap_aborted host thunk arg pre reason post :
  hasAbortController host = true →
  (options thunk ≫= AsyncThunkOptions.serializeError) = None →
  phase (run host thunk arg pre) = Running →
  unwrap (run host thunk arg (pre ++ Abort reason :: post))
  = Some (Throws (JObj PlainObject
                    (<["name" := JStr "AbortError"]>
                       {[ "message" := JStr (abortMessage reason) ]}))).
Proof.
  intros Hhost Hser Hrun. unfold unwrap.
  rewrite (abort_running_promise host thunk arg pre reason post Hhost Hrun). simpl.
  unfold unwrapResult. simpl.
  rewrite (serialized_default _ _ Hser), abortError_message. by vm_compute.
Qed.

Lemma unwrap_aborted_witness :
  let thunk := fetchTodos (ReturnsPromise (Resolves (JStr "ok"))) None in
  unwrap
    (run browser thunk JUndefined ([Invoke] ++ Abort None :: [ComputationSettles]))
  = Some (Throws (JObj PlainObject
                    (<["name" := JStr "AbortError"]>
                       {[ "message" := JStr (abortMessage None) ]}))).
Proof.
  apply (unwrap_aborted browser (fetchTodos (ReturnsPromise (Resolves (JStr "ok"))) None)
           JUndefined [Invoke] None [ComputationSettles]); reflexivity.
Defined.

(** ** Without [AbortController], again *)

(** X14.  On a platform without [AbortController], calls of [abort] change
    nothing that can be observed: a run dispatches the same actions, is in
    the same phase and has the same outcome as the run without them. *)
Theorem fallback_abort_inert host thunk arg events :
  hasAbortController host = false →
  let s := run host thunk arg events in
  let s' := run host thunk arg (withoutAborts events) in
  sink s = sink s' ∧ promise s = promise s' ∧ phase s = phase s'
  ∧ started s = started s' ∧ thrown s = thrown s'.
Proof.
  intros Hhost s s'.
  destruct (fallback_withoutAborts host thunk arg events _ _ Hhost (sameCall_refl initial))
    as (H1 & _ & _ & _ & H5 & H6 & H7 & H8).
  done.
Qed.

Lemma fallback_abort_inert_witness :
  let thunk := fetchTodos (ReturnsPromise (Resolves (JStr "ok"))) None in
  let s := run legacyPlatform thunk JUndefined
             [Invoke; Abort (Some "x"); ComputationSettles; Abort None] in
  let s' := run legacyPlatform thunk JUndefined
              (withoutAborts [Invoke; Abort (Some "x"); ComputationSettles; Abort None]) in
  sink s = sink s' ∧ promise s = promise s' ∧ phase s = phase s'
  ∧ started s = started s' ∧ thrown s = thrown s'.
Proof.
  apply (fallback_abort_inert legacyPlatform
           (fetchTodos (ReturnsPromise (Resolves (JStr "ok"))) None) JUndefined
           [Invoke; Abort (Some "x"); ComputationSettles; Abort None]).
  reflexivity.
Defined.

(** ** What ends a call, again *)

(** X15.  A call does not end without a cause.  When its promise has
    resolved, the body has been entered, and the final action is one of
    three: the rejected action of the condition (it threw, or returned
    [false]); the action the payload creator's result leads to, the payload
    creator having thrown or its promise having won the race; or, only with
    [AbortController], the rejected action of an abort whose reason is that of
    a call of [abort] in the trace. *)
Theorem final_action_cause host thunk arg events a :
  promise (run host thunk arg events) = Some a →
  let r := payloadCreator thunk arg (theRequestId host thunk) (getState host) (extra host) in
  Invoke ∈ events
  ∧ ((∃ e, gateError host thunk arg = Some e
           ∧ rejected thunk e (theRequestId host thunk) arg = Returns a)
     ∨ (gateError host thunk arg = None
        ∧ completion host thunk arg r = Some (Returns a)
        ∧ ((∃ e, r = ThrowsSync e) ∨ ComputationSettles ∈ events))
     ∨ (gateError host thunk arg = None
        ∧ hasAbortController host = true
        ∧ ∃ reason, Abort reason ∈ events
            ∧ rejected thunk (abortError reason) (theRequestId host thunk) arg
              = Returns a)).
Proof.
  intros Hpr r.
  pose proof (cause_invariant host thunk arg events) as H. cbv zeta in H.
  assert (Hp : phase (run host thunk arg events) = Settled).
  { destruct (shape_run host thunk arg events)
      as [_ _ _ _ _ Hpr' _ _ | ? ? Hp' | ? ? Hp' | ? _ _ _ _ _ Hpr' _ _
         | ? ? Hp' | ? ? Hp']; congruence. }
  rewrite Hp in H. destruct H as (o & Ho & Hin & Hcause).
  unfold ending in Ho. rewrite Hpr in Ho. injection Ho as <-.
  split; [done|].
  destruct Hcause as [(e & ? & ?)|[(? & ? & ?)|(? & ? & reason & ? & ?)]].
  - left. eauto.
  - right. left. eauto.
  - right. right. split_and!; [done..|]. eauto.
Qed.

Lemma final_action_cause_witness :
  let thunk := fetchTodos (ReturnsPromise (Resolves (JStr "ok"))) None in
  let a := rejectedData thunk (abortError (Some "x")) "r1" JUndefined in
  Invoke ∈ [Invoke; Abort (Some "x")]
  ∧ ((∃ e, gateError browser thunk JUndefined = Some e
           ∧ rejected thunk e (theRequestId browser thunk) JUndefined = Returns a)
     ∨ (gateError browser thunk JUndefined = None
        ∧ completion browser thunk JUndefined (ReturnsPromise (Resolves (JStr "ok")))
          = Some (Returns a)
        ∧ ((∃ e, ReturnsPromise (Resolves (JStr "ok")) = ThrowsSync e)
           ∨ ComputationSettles ∈ [Invoke; Abort (Some "x")]))
     ∨ (gateError browser thunk JUndefined = None
        ∧ hasAbortController browser = true
        ∧ ∃ reason, Abort reason ∈ [Invoke; Abort (Some "x")]
            ∧ rejected thunk (abortError reason) (theRequestId browser thunk) JUndefined
              = Returns a)).
Proof.
  apply (final_action_cause browser
           (fetchTodos (ReturnsPromise (Resolves (JStr "ok"))) None) JUndefined
           [Invoke; Abort (Some "x")]).
  reflexivity.
Defined.



(** ** The notice of the stand-in for [AbortController] *)

Lemma fallbackAbort_console production c :
  (displayedWarning c = false ∧ infos c = []) ∨ (displayedWarning c = true ∧ infos c = [notice]) →
  let c' := fallbackAbort production c in
  (displayedWarning c' = false ∧ infos c' = []) ∨ (displayedWarning c' = true ∧ infos c' = [notice]).
Proof.
  intros [[Hd Hi]|[Hd Hi]]; unfold fallbackAbort; destruct production; simpl;
    rewrite ?Hd, ?Hi; simpl; rewrite ?Hi; auto.
Qed.

(** X16.  Over all the calls of a thunk and everything done to them, the
    notice about the missing [AbortController] is printed at most once, and
    [displayedWarning] is set exactly when it has been printed.  Nothing is
    printed in production, nor where [AbortController] exists, nor as long as
    no call of [abort] was made. *)
Theorem notice_at_most_once production platform thunk events :
  let c := console (callsRun production platform thunk events) in
  ((displayedWarning c = false ∧ infos c = [])
   ∨ (displayedWarning c = true ∧ infos c = [notice]))
  ∧ (production = true ∨ platform = true → infos c = [])
  ∧ ((∀ i reason, OnCall i (Abort reason) ∉ events) → infos c = [])
  ∧ (∀ i reason cl,
       production = false → platform = false →
       calls (callsRun production platform thunk events) !! i = Some cl →
       started (callState cl) = true →
       infos (console (callsRun production platform thunk
                         (events ++ [OnCall i (Abort reason)]))) = [notice]).
Proof.
  intros c.
  assert (Hmain : ((displayedWarning c = false ∧ infos c = [])
                   ∨ (displayedWarning c = true ∧ infos c = [notice]))
                  ∧ (production = true ∨ platform = true → infos c = [])
                  ∧ ((∀ i reason, OnCall i (Abort reason) ∉ events) → infos c = []));
    [|destruct Hmain as (H1 & H2 & H3); split_and!; [done..|];
      intros i reason cl -> -> Hcl Hst; unfold callsRun; rewrite foldl_app; cbn [foldl];
      fold (callsRun false false thunk events); simpl; rewrite Hcl; simpl; rewrite Hst;
      simpl; fold c; unfold fallbackAbort; simpl;
      destruct H1 as [[-> ->]|[-> ->]]; done].
  unfold c, callsRun.
  induction events as [|ev events IH] using rev_ind; [by auto|].
  rewrite foldl_app. cbn [foldl].
  set (t := foldl (callsStep production platform thunk) noCalls events) in *.
  destruct IH as (IH1 & IH2 & IH3).
  assert (Hsame : console (callsStep production platform thunk t ev) = console t
                  ∨ (∃ i reason, ev = OnCall i (Abort reason))
                    ∧ production = false ∧ platform = false
                    ∧ console (callsStep production platform thunk t ev)
                      = fallbackAbort production (console t)).
  { destruct ev as [id st ex a|i e]; simpl; [by left|].
    destruct (calls t !! i) as [cl|]; [simpl|by left].
    destruct e as [|reason|]; [by left| |by left].
    destruct (started (callState cl)), platform, production; simpl;
      first [ by left | right; split_and!; eauto ]. }
  destruct Hsame as [->|((i & reason & ->) & -> & -> & ->)].
  - split_and!; [done|done|]. intros Hno. apply IH3. intros i reason Hin.
    apply (Hno i reason). apply elem_of_app. by left.
  - split_and!.
    + by apply fallbackAbort_console.
    + by intros [|].
    + intros Hno. exfalso. apply (Hno i reason).
      apply elem_of_app. right. by apply list_elem_of_singleton.
Qed.
